(** * Lab3_IoT: the Store service (src/Store/main.py) and the Hub's client
      adapter (src/Hub/app/adapters/store_api_adapter.py)

    A shallow embedding of the two Python files.  The relational table is a
    list of rows with a sequence for the primary key, a database session is
    a small state-and-exception monad, the process-wide [subscriptions] set
    is a [gset] of connection handles iterated through a model of Python's
    set iterator, and the suspension points of the coroutines ([await]) are
    the places where registry events of other flows are interleaved. *)

From Stdlib Require Import ZArith PrimFloat.
From stdpp Require Import base gmap sets list strings.

Open Scope Z_scope.

#[local] Set Warnings "-clear-no-such-hyp".

(** ** Python values shared by both files *)

(** [datetime.datetime]: a calendar date and time of day, naive
    ([utcoffset] is [None]) or carrying its offset from UTC in seconds. *)
Record datetime := {
  year : Z; month : Z; day : Z;
  hour : Z; minute : Z; second : Z; microsecond : Z;
  utcoffset : option Z
}.

(** The day number of a date of the proleptic Gregorian calendar, counted
    from 1970-01-01, and the date of a day number. *)
Definition days_from_civil (y m d : Z) : Z :=
  let y' := if m <=? 2 then y - 1 else y in
  let era := y' / 400 in
  let yoe := y' - era * 400 in
  let mp := (m + 9) mod 12 in
  let doy := (153 * mp + 2) / 5 + d - 1 in
  let doe := yoe * 365 + yoe / 4 - yoe / 100 + doy in
  era * 146097 + doe - 719468.

Definition civil_from_days (z : Z) : Z * Z * Z :=
  let z' := z + 719468 in
  let era := z' / 146097 in
  let doe := z' - era * 146097 in
  let yoe := (doe - doe / 1460 + doe / 36524 - doe / 146096) / 365 in
  let doy := doe - (365 * yoe + yoe / 4 - yoe / 100) in
  let mp := (5 * doy + 2) / 153 in
  let d := doy - (153 * mp + 2) / 5 + 1 in
  let m := if mp <? 10 then mp + 3 else mp - 9 in
  let y := yoe + era * 400 in
  (if m <=? 2 then y + 1 else y, m, d).

(** The reading of a datetime's clock in seconds, and the naive datetime
    whose clock reads [t] seconds and [us] microseconds. *)
Definition wall_seconds (d : datetime) : Z :=
  ((days_from_civil (year d) (month d) (day d) * 24 + hour d) * 60 + minute d) * 60
  + second d.

Definition at_wall_seconds (t us : Z) : datetime :=
  let '(y, m, d) := civil_from_days (t / 86400) in
  let s := t mod 86400 in
  {| year := y; month := m; day := d;
     hour := s / 3600; minute := (s mod 3600) / 60; second := s mod 60;
     microsecond := us; utcoffset := None |}.

(** The exceptions that the modelled code raises or lets through. *)
Inductive exn :=
| HTTPException (status_code : Z) (detail : string)
| RequestValidationError (msg : string)
| ValueError (msg : string)
| TypeError
| KeyError
| RuntimeError (msg : string)
| SQLAlchemyError
| WebSocketSendError
| WebSocketDisconnect.

(** The outcome of a Python call: a value, or a raised exception. *)
Inductive result (A : Type) :=
| Ok (a : A)
| Raise (e : exn).
Arguments Ok {A} a.
Arguments Raise {A} e.

Definition is_ok {A} (r : result A) : bool :=
  match r with Ok _ => true | Raise _ => false end.

(** The status line FastAPI answers with: 200 for a returned value, the
    carried status for an [HTTPException], 422 for a body that fails
    validation, 500 for every exception the handler lets through. *)
Definition status_of {A} (r : result A) : Z :=
  match r with
  | Ok _ => 200
  | Raise (HTTPException c _) => c
  | Raise (RequestValidationError _) => 422
  | Raise _ => 500
  end.

Module Store.

(** ** FastAPI models (main.py, lines 50-92) *)

Record AccelerometerData := { x : float; y : float; z : float }.

Record GpsData := { latitude : float; longitude : float }.

Record AgentData := {
  accelerometer : AccelerometerData;
  gps : GpsData;
  timestamp : datetime
}.

Record ProcessedAgentData := {
  road_state : string;
  agent_data : AgentData
}.

(** A row of the [processed_agent_data] table; it is also the response model
    [ProcessedAgentDataInDB]. *)
Record ProcessedAgentDataInDB := {
  db_id : Z;
  db_road_state : string;
  db_x : float;
  db_y : float;
  db_z : float;
  db_latitude : float;
  db_longitude : float;
  db_timestamp : datetime
}.

(** What a [Float] column gives back of a value written to it: the value,
    but of a zero of either sign the positive zero. *)
Definition column_float (f : float) : float :=
  if PrimFloat.eqb f zero then zero else f.

(** The offset from UTC of the database session's time zone, in seconds:
    the server's [TimeZone] setting, taken to be UTC. *)
Definition session_utcoffset : Z := 0.

(** What the [DateTime] column, a timestamp without time zone, keeps of a
    value written to it: a naive datetime as it is; of one that carries an
    offset, the naive reading of the same instant on the session's clock. *)
Definition column_timestamp (d : datetime) : datetime :=
  match utcoffset d with
  | None => d
  | Some off =>
      at_wall_seconds (wall_seconds d - off + session_utcoffset) (microsecond d)
  end.

(** The row the table keeps for the column values of an
    [insert().values(...)] or [update().values(...)] built from a
    [ProcessedAgentData] (lines 125-133 and 178-186). *)
Definition values (i : Z) (u : ProcessedAgentData) : ProcessedAgentDataInDB :=
  {| db_id := i;
     db_road_state := road_state u;
     db_x := column_float (x (accelerometer (agent_data u)));
     db_y := column_float (y (accelerometer (agent_data u)));
     db_z := column_float (z (accelerometer (agent_data u)));
     db_latitude := column_float (latitude (gps (agent_data u)));
     db_longitude := column_float (longitude (gps (agent_data u)));
     db_timestamp := column_timestamp (timestamp (agent_data u)) |}.

(** ** The table and the session *)

(** The table: its rows, and the sequence behind the generated integer
    primary key ([Column("id", Integer, primary_key=True)]). *)
Record Database := {
  rows : list ProcessedAgentDataInDB;
  next_id : Z
}.

Definition empty_database : Database := {| rows := []; next_id := 1 |}.

(** A session opened by [SessionLocal()]: the committed table, the rows as
    the open transaction sees them, the sequence (which a rollback does not
    rewind), the number of statements issued so far and the statement, if
    any, at which the database fails. *)
Record Session := {
  committed : list ProcessedAgentDataInDB;
  pending : list ProcessedAgentDataInDB;
  sequence : Z;
  issued : nat;
  fault : option nat
}.

Definition M (A : Type) : Type := Session -> result A * Session.

Definition ret {A} (a : A) : M A := fun s => (Ok a, s).

Definition bind {A B} (m : M A) (k : A -> M B) : M B :=
  fun s => match m s with
           | (Ok a, s') => k a s'
           | (Raise e, s') => (Raise e, s')
           end.

Definition raise {A} (e : exn) : M A := fun s => (Raise e, s).

#[local] Notation "v <- m ;; k" := (bind m (fun v => k))
  (at level 100, m at next level, right associativity).
#[local] Notation "m ;;; k" := (bind m (fun _ => k))
  (at level 100, right associativity).

(** Every statement, and every commit that ends a transaction, is a round
    trip to the database and raises when the database fails at it. *)
Definition statement : M unit :=
  fun s =>
    let s' := {| committed := committed s; pending := pending s;
                 sequence := sequence s; issued := S (issued s);
                 fault := fault s |} in
    if bool_decide (fault s = Some (issued s))
    then (Raise SQLAlchemyError, s')
    else (Ok tt, s').

Definition has_id (i : Z) (r : ProcessedAgentDataInDB) : bool :=
  bool_decide (db_id r = i).

(** [execute(processed_agent_data.insert().values(...))]: the row gets the
    next value of the sequence. *)
Definition execute_insert (u : ProcessedAgentData) : M unit :=
  statement ;;;
  fun s => (Ok tt,
            {| committed := committed s;
               pending := pending s ++ [values (sequence s) u];
               sequence := sequence s + 1;
               issued := issued s; fault := fault s |}).

(** [execute(select(...).where(c.id == i)).first()]: the first matching row,
    or [None]. *)
Definition execute_select_first (i : Z) : M (option ProcessedAgentDataInDB) :=
  statement ;;;
  fun s => (Ok (List.find (has_id i) (pending s)), s).

(** [execute(select(processed_agent_data))]: a result object over all rows;
    the call returns an object, or raises. *)
Definition execute_select (_ : unit) : M (option (list ProcessedAgentDataInDB)) :=
  statement ;;;
  fun s => (Ok (Some (pending s)), s).

(** [execute(update(...).where(c.id == i).values(...))]. *)
Definition execute_update (i : Z) (u : ProcessedAgentData) : M unit :=
  statement ;;;
  fun s => (Ok tt,
            {| committed := committed s;
               pending := List.map (fun r => if has_id i r then values i u else r)
                                   (pending s);
               sequence := sequence s;
               issued := issued s; fault := fault s |}).

(** [execute(delete(...).where(c.id == i))]. *)
Definition execute_delete (i : Z) : M unit :=
  statement ;;;
  fun s => (Ok tt,
            {| committed := committed s;
               pending := List.filter (fun r => negb (has_id i r)) (pending s);
               sequence := sequence s;
               issued := issued s; fault := fault s |}).

(** [current_session.commit()]: a round trip that ends the transaction.  A
    session that has executed nothing holds no connection and has no
    transaction to end: its commit returns without reaching the database. *)
Definition commit : M unit :=
  fun s =>
    if bool_decide (issued s = 0%nat) then (Ok tt, s)
    else (statement ;;;
          fun s => (Ok tt,
                    {| committed := pending s; pending := pending s;
                       sequence := sequence s;
                       issued := issued s; fault := fault s |})) s.

(** [with SessionLocal() as current_session: body]: the body runs in a fresh
    session; leaving the block, normally or by an exception, closes the
    session, which rolls back whatever was not committed. *)
Definition with_session {A} (flt : option nat) (body : M A) (db : Database)
  : result A * Database :=
  let s0 := {| committed := rows db; pending := rows db;
               sequence := next_id db; issued := 0%nat; fault := flt |} in
  let '(r, s) := body s0 in
  (r, {| rows := committed s; next_id := sequence s |}).

(** [for data_unit in data: current_session.execute(insert)] *)
Fixpoint insert_all (data : list ProcessedAgentData) : M unit :=
  match data with
  | [] => ret tt
  | u :: rest => execute_insert u ;;; insert_all rest
  end.

(** ** Validation of the request body (lines 61-76 and the annotation
       [data: List[ProcessedAgentData]] of the create handler) *)

(** A Python value as it reaches the validation of the [timestamp] field. *)
Inductive pyvalue :=
| PyDatetime (d : datetime)
| PyStr (s : string)
| PyInt (n : Z)
| PyNone.

(** What a class body binds a method name to.  Decorators apply from the
    [def] outwards: [field_validator(...)] wraps the function in a
    [PydanticDescriptorProxy] that names the validated field, [classmethod]
    wraps whatever it is given in a classmethod object. *)
Inductive attribute :=
| Function (f : pyvalue -> result datetime)
| ClassMethod (wrapped : attribute)
| PydanticDescriptorProxy (field : string) (wrapped : attribute).

Definition classmethod (a : attribute) : attribute := ClassMethod a.

Definition field_validator (field : string) (a : attribute) : attribute :=
  PydanticDescriptorProxy field a.

Fixpoint wrapped_function (a : attribute) : pyvalue -> result datetime :=
  match a with
  | Function f => f
  | ClassMethod w => wrapped_function w
  | PydanticDescriptorProxy _ w => wrapped_function w
  end.

(** pydantic builds a model's validators from the attributes of the class
    that are [PydanticDescriptorProxy] objects; an attribute of any other
    kind, a classmethod object included, is passed over. *)
Fixpoint field_validators (field : string) (namespace : list (string * attribute))
  : list (pyvalue -> result datetime) :=
  match namespace with
  | [] => []
  | (_, PydanticDescriptorProxy f w) :: rest =>
      if bool_decide (f = field)
      then wrapped_function w :: field_validators field rest
      else field_validators field rest
  | _ :: rest => field_validators field rest
  end.

(** The [mode="before"] validators of a field run in turn on the raw value,
    each handing its result to the next. *)
Fixpoint run_before (vs : list (pyvalue -> result datetime)) (value : pyvalue)
  : result pyvalue :=
  match vs with
  | [] => Ok value
  | f :: rest =>
      match f value with
      | Ok d => run_before rest (PyDatetime d)
      | Raise e => Raise e
      end
  end.

Section Validation.

(** [datetime.fromisoformat] on a string: the parsed value, or [None] where
    Python raises [ValueError]. *)
Variable fromisoformat : string -> option datetime.

(** pydantic's own validation of a field annotated [datetime]: the value it
    arrives at, or [None] where it reports an invalid datetime. *)
Variable datetime_schema : pyvalue -> option datetime.

(** [AgentData.check_timestamp]: a [datetime] passes; anything else goes
    through [datetime.fromisoformat], whose [TypeError] (not a string) and
    [ValueError] (not ISO 8601) both become the validator's [ValueError]. *)
Definition check_timestamp (value : pyvalue) : result datetime :=
  match value with
  | PyDatetime d => Ok d
  | PyStr s =>
      match fromisoformat s with
      | Some d => Ok d
      | None =>
          Raise (ValueError
            "Invalid timestamp format. Expected ISO 8601 format (YYYY-MM-DDTHH:MM:SSZ).")
      end
  | PyInt _ | PyNone =>
      Raise (ValueError
        "Invalid timestamp format. Expected ISO 8601 format (YYYY-MM-DDTHH:MM:SSZ).")
  end.

(** The methods of class [AgentData] (lines 66-68):
    [@classmethod] above [@field_validator("timestamp", mode="before")]
    above [def check_timestamp]. *)
Definition AgentData_namespace : list (string * attribute) :=
  [("check_timestamp",
    classmethod (field_validator "timestamp" (Function check_timestamp)))].

(** Validation of the [timestamp] field of [AgentData]: the field's
    [before] validators, then pydantic's validation of a [datetime]. *)
Definition validate_timestamp (value : pyvalue) : result datetime :=
  match run_before (field_validators "timestamp" AgentData_namespace) value with
  | Ok v =>
      match datetime_schema v with
      | Some d => Ok d
      | None => Raise (ValueError "Input should be a valid datetime")
      end
  | Raise e => Raise e
  end.

(** One element of the JSON body before validation: the fields as decoded,
    the timestamp still as it came on the wire. *)
Record RawProcessedAgentData := {
  raw_road_state : string;
  raw_accelerometer : AccelerometerData;
  raw_gps : GpsData;
  raw_timestamp : pyvalue
}.

(** Building a [ProcessedAgentData] from a decoded element; a failed
    validation is reported by FastAPI as a request validation error. *)
Definition validate (r : RawProcessedAgentData) : result ProcessedAgentData :=
  match validate_timestamp (raw_timestamp r) with
  | Ok d =>
      Ok {| road_state := raw_road_state r;
            agent_data := {| accelerometer := raw_accelerometer r;
                             gps := raw_gps r;
                             timestamp := d |} |}
  | Raise (ValueError msg) => Raise (RequestValidationError msg)
  | Raise e => Raise e
  end.

Fixpoint validate_body (body : list RawProcessedAgentData)
  : result (list ProcessedAgentData) :=
  match body with
  | [] => Ok []
  | r :: rest =>
      match validate r, validate_body rest with
      | Ok u, Ok us => Ok (u :: us)
      | Raise e, _ => Raise e
      | Ok _, Raise e => Raise e
      end
  end.

End Validation.

(** ** The subscriber registry and the broadcast (lines 97-115) *)

(** A [WebSocket] object, known by its identity. *)
Definition handle := nat.

(** The process: the database, the global [subscriptions] set, and the
    frames handed to the transport so far, oldest first. *)
Record World := {
  db : Database;
  subscriptions : gset handle;
  sent : list (handle * string)
}.

Definition set_db (d : Database) (w : World) : World :=
  {| db := d; subscriptions := subscriptions w; sent := sent w |}.

Definition set_subscriptions (s : gset handle) (w : World) : World :=
  {| db := db w; subscriptions := s; sent := sent w |}.

Definition record_sent (h : handle) (p : string) (w : World) : World :=
  {| db := db w; subscriptions := subscriptions w; sent := sent w ++ [(h, p)] |}.

(** [subscriptions.add(websocket)] *)
Definition set_add (h : handle) (s : gset handle) : gset handle := {[h]} ∪ s.

(** [subscriptions.remove(websocket)]: Python's [set.remove] raises
    [KeyError] when the element is not in the set. *)
Definition set_remove (h : handle) (s : gset handle) : result (gset handle) :=
  if bool_decide (h ∈ s) then Ok (s ∖ {[h]}) else Raise KeyError.

(** What another flow does to the registry while the broadcast is suspended
    in an [await]: a connection is accepted and added (line 104), or a
    connection's receive loop ends with [WebSocketDisconnect] and the
    handler removes it (line 109). *)
Inductive flow_event :=
| Connect (h : handle)
| Disconnect (h : handle).

(** The exception of a failing [remove] stays in the flow that raised it;
    the set is left as it was. *)
Definition run_event (e : flow_event) (s : gset handle) : gset handle :=
  match e with
  | Connect h => set_add h s
  | Disconnect h =>
      match set_remove h s with
      | Ok s' => s'
      | Raise _ => s
      end
  end.

Definition run_events (es : list flow_event) (s : gset handle) : gset handle :=
  fold_left (fun acc e => run_event e acc) es s.

(** Python's set iterator: it remembers the size of the set when the loop
    started and how far it has walked.  [elements] stands for the order in
    which the set's table is walked. *)
Record set_iterator := { si_used : nat; si_pos : nat }.

Inductive iter_step :=
| IterChanged
| IterStop
| IterYield (h : handle) (it : set_iterator).

Definition set_iter (s : gset handle) : set_iterator :=
  {| si_used := size s; si_pos := 0 |}.

(** [next(it)]: a set whose size differs from the remembered one raises
    [RuntimeError("Set changed size during iteration")].  Where the set
    changed and kept its size, Python goes on without saying which elements
    it still visits; here the walk goes on at the same position of the new
    order. *)
Definition setiter_next (it : set_iterator) (s : gset handle) : iter_step :=
  if bool_decide (size s = si_used it)
  then match elements s !! si_pos it with
       | Some h => IterYield h {| si_used := si_used it; si_pos := S (si_pos it) |}
       | None => IterStop
       end
  else IterChanged.

Section Broadcast.

(** [json.dumps] on the list the handler received: the text, or [None]
    where the encoder raises [TypeError]. *)
Variable json_dumps : list ProcessedAgentData -> option string.

(** Whether the transport of a connection accepts a frame. *)
Variable send_ok : handle -> bool.

(** One pass through the body of the [for] loop of
    [send_data_to_subscribers] for the handle [h], suspended in the [await]
    while the flows of [es] run.  The send is taken to complete: it returns
    or it raises. *)
Definition send_one (data : list ProcessedAgentData) (h : handle)
    (es : list flow_event) (w : World) : result unit * World :=
  match json_dumps data with
  | None => (Raise TypeError, w)
  | Some p =>
      let w1 := set_subscriptions (run_events es (subscriptions w)) w in
      if send_ok h then (Ok tt, record_sent h p w1)
      else (Raise WebSocketSendError, w1)
  end.

(** The [for websocket in subscriptions] loop, over the live set.  [sched]
    gives, for each [await] in turn, the events interleaved there. *)
Fixpoint send_loop (fuel : nat) (data : list ProcessedAgentData)
    (it : set_iterator) (sched : list (list flow_event)) (w : World)
  : option (result unit * World) :=
  match fuel with
  | O => None
  | S fuel' =>
      match setiter_next it (subscriptions w) with
      | IterChanged =>
          Some (Raise (RuntimeError "Set changed size during iteration"), w)
      | IterStop => Some (Ok tt, w)
      | IterYield h it' =>
          match send_one data h (hd [] sched) w with
          | (Ok _, w') => send_loop fuel' data it' (tl sched) w'
          | (Raise e, w') => Some (Raise e, w')
          end
      end
  end.

(** [send_data_to_subscribers(data)].  The loop visits at most as many
    handles as the set had when it started, then stops or raises. *)
Definition send_data_to_subscribers (data : list ProcessedAgentData)
    (sched : list (list flow_event)) (w : World) : option (result unit * World) :=
  send_loop (S (size (subscriptions w))) data (set_iter (subscriptions w)) sched w.

(** ** The CRUDL endpoints (lines 121-213) *)

(** [create_processed_agent_data]: the inserts and the commit inside the
    session block, then the broadcast. *)
Definition create_processed_agent_data (flt : option nat)
    (sched : list (list flow_event)) (data : list ProcessedAgentData)
    (w : World) : option (result unit * World) :=
  match with_session flt (insert_all data ;;; commit) (db w) with
  | (Ok _, d) => send_data_to_subscribers data sched (set_db d w)
  | (Raise e, d) => Some (Raise e, set_db d w)
  end.

End Broadcast.

(** [POST /processed_agent_data/]: FastAPI validates the body against
    [List[ProcessedAgentData]] and calls the handler only with a valid one. *)
Definition post_processed_agent_data
    (fromisoformat : string -> option datetime)
    (datetime_schema : pyvalue -> option datetime)
    (json_dumps : list ProcessedAgentData -> option string)
    (send_ok : handle -> bool) (flt : option nat)
    (sched : list (list flow_event)) (body : list RawProcessedAgentData)
    (w : World) : option (result unit * World) :=
  match validate_body fromisoformat datetime_schema body with
  | Ok data => create_processed_agent_data json_dumps send_ok flt sched data w
  | Raise e => Some (Raise e, w)
  end.

(** [read_processed_agent_data] *)
Definition read_processed_agent_data (flt : option nat) (processed_agent_data_id : Z)
    (d : Database) : result ProcessedAgentDataInDB * Database :=
  with_session flt
    (requested_unit <- execute_select_first processed_agent_data_id ;;
     match requested_unit with
     | None => raise (HTTPException 404 "Requested unit not found")
     | Some r => ret r
     end) d.

(** [list_processed_agent_data] *)
Definition list_processed_agent_data (flt : option nat)
    (d : Database) : result (list ProcessedAgentDataInDB) * Database :=
  with_session flt
    (requested_units <- execute_select tt ;;
     match requested_units with
     | None => raise (HTTPException 404 "Requested units not found")
     | Some rs => ret rs
     end) d.

(** [update_processed_agent_data] *)
Definition update_processed_agent_data (flt : option nat) (processed_agent_data_id : Z)
    (data : ProcessedAgentData) (d : Database)
  : result (option ProcessedAgentDataInDB) * Database :=
  with_session flt
    (requested_unit <- execute_select_first processed_agent_data_id ;;
     match requested_unit with
     | None => raise (HTTPException 404 "Requested unit not found")
     | Some _ =>
         execute_update processed_agent_data_id data ;;;
         commit ;;;
         execute_select_first processed_agent_data_id
     end) d.

(** [delete_processed_agent_data] *)
Definition delete_processed_agent_data (flt : option nat) (processed_agent_data_id : Z)
    (d : Database) : result ProcessedAgentDataInDB * Database :=
  with_session flt
    (requested_unit <- execute_select_first processed_agent_data_id ;;
     match requested_unit with
     | None => raise (HTTPException 404 "Requested unit not found")
     | Some r =>
         execute_delete processed_agent_data_id ;;;
         commit ;;;
         ret r
     end) d.

End Store.

Module Hub.

(** ** StoreApiAdapter (store_api_adapter.py) *)

(** What [requests.post(url, data)] puts on the wire, and what comes back. *)
Record Request := { url : string; body : string }.
Record Response := { status_code : Z; text : string }.

(** [requests.codes.ok] *)
Definition codes_ok : Z := 200.

(** [sep.join(parts)] *)
Fixpoint join (sep : string) (parts : list string) : string :=
  match parts with
  | [] => ""
  | [p] => p
  | p :: rest => p +:+ sep +:+ join sep rest
  end.

Section Adapter.

(** The entity [app.entities.processed_agent_data.ProcessedAgentData] and its
    pydantic serializer [model_dump_json]; the entity's module is not part
    of the adapter's file. *)
Variable ProcessedAgentData : Type.
Variable model_dump_json : ProcessedAgentData -> string.

(** The HTTP exchange behind [requests.post]: the server's response, or the
    exception [requests] raises when no response arrives. *)
Variable post : Request -> result Response.

(** [requests.post(url, data)]: the request goes out on the wire, after the
    requests already there, and the exchange's outcome comes back. *)
Definition requests_post (wire : list Request) (url data : string)
  : result Response * list Request :=
  let request := {| url := url; body := data |} in
  (post request, wire ++ [request]).

(** [StoreApiAdapter.save_data]: the requests it put on the wire, in order,
    and the value it returned or the exception it let through. *)
Definition save_data (api_base_url : string)
    (processed_agent_data_batch : list ProcessedAgentData)
  : list Request * result bool :=
  let api_endpoint_url := api_base_url +:+ "/processed_agent_data" in
  let processed_data := List.map model_dump_json processed_agent_data_batch in
  match requests_post [] api_endpoint_url ("[" +:+ join "," processed_data +:+ "]") with
  | (Ok response, wire) =>
      if bool_decide (status_code response ≠ codes_ok)
      then (wire, Ok false)
      else (wire, Ok true)
  | (Raise e, wire) => (wire, Raise e)
  end.

End Adapter.

End Hub.

Import Store.

(** ** Requests, reachable tables and the connection life cycle *)

(** The part of [create_processed_agent_data] that runs inside the session
    block: its outcome and the table it leaves. *)
Definition create_block (flt : option nat) (data : list ProcessedAgentData)
    (d : Database) : result unit * Database :=
  with_session flt (bind (insert_all data) (fun _ => commit)) d.

(** A request to one of the five endpoints, with the database fault (if any)
    that meets it. *)
Inductive request :=
| Create (flt : option nat) (data : list ProcessedAgentData)
| Read (flt : option nat) (i : Z)
| ListAll (flt : option nat)
| Update (flt : option nat) (i : Z) (data : ProcessedAgentData)
| Delete (flt : option nat) (i : Z).

(** The table a request leaves behind. *)
Definition serve (q : request) (d : Database) : Database :=
  match q with
  | Create flt data => snd (create_block flt data d)
  | Read flt i => snd (read_processed_agent_data flt i d)
  | ListAll flt => snd (list_processed_agent_data flt d)
  | Update flt i data => snd (update_processed_agent_data flt i data d)
  | Delete flt i => snd (delete_processed_agent_data flt i d)
  end.

Definition serve_all (qs : list request) (d : Database) : Database :=
  fold_left (fun acc q => serve q acc) qs d.

(** The tables the service can be in: those reached from the empty table by
    some sequence of requests. *)
Definition reachable (d : Database) : Prop :=
  exists qs, serve_all qs empty_database = d.

Definition ids (rs : list ProcessedAgentDataInDB) : list Z := List.map db_id rs.

(** The [websocket_endpoint] coroutine by its events: the connection is
    accepted and added; later its receive loop ends, either with
    [WebSocketDisconnect], which the handler answers by removing the
    connection, or with another exception, which the handler lets through. *)
Inductive ws_event :=
| WsAccept (h : handle)
| WsDisconnect (h : handle)
| WsAbort (h : handle).

(** What the handler of an event does to the registry: [Ok] with the set it
    leaves, or the exception of a removal that is refused.  The exception
    that ends an aborted loop is not the handler's doing and leaves the set
    as it is; how the handler itself ends is [websocket_endpoint] below. *)
Definition registry_step (e : ws_event) (s : gset handle)
  : result (gset handle) :=
  match e with
  | WsAccept h => Ok (set_add h s)
  | WsDisconnect h => set_remove h s
  | WsAbort h => Ok s
  end.

(** The registry over a run of events; cut short at the first removal that
    is refused. *)
Fixpoint websocket_run (es : list ws_event) (s : gset handle)
  : result (gset handle) :=
  match es with
  | [] => Ok s
  | e :: rest =>
      match registry_step e s with
      | Ok s' => websocket_run rest s'
      | Raise x => Raise x
      end
  end.

(** The [try] statement of the handler (lines 105-109) when the receive loop
    of the connection [h] raises [x]: [WebSocketDisconnect] is caught, the
    handle is removed and the handler returns, unless the removal raises;
    any other exception finds no [except] branch and ends the handler, the
    registry untouched. *)
Definition loop_ends (x : exn) (h : handle) (s : gset handle)
  : result unit * gset handle :=
  match x with
  | WebSocketDisconnect =>
      match set_remove h s with
      | Ok s' => (Ok tt, s')
      | Raise x' => (Raise x', s)
      end
  | _ => (Raise x, s)
  end.

(** [websocket_endpoint] at one event of its connection: how the handler
    goes on or ends there, and the registry it leaves.  After the accept
    the handler is in its receive loop; the loop of a connection that
    disconnects raises [WebSocketDisconnect], the loop of an aborted one
    raises [raised h]. *)
Definition websocket_endpoint (raised : handle -> exn) (e : ws_event)
    (s : gset handle) : result unit * gset handle :=
  match e with
  | WsAccept h => (Ok tt, set_add h s)
  | WsDisconnect h => loop_ends WebSocketDisconnect h s
  | WsAbort h => loop_ends (raised h) h s
  end.

(** The handlers of a run of events, each on the registry the earlier ones
    left: how each ends, and the registry after all of them.  An exception
    ends the handler it is raised in, not the others. *)
Fixpoint websocket_trace (raised : handle -> exn) (es : list ws_event)
    (s : gset handle) : list (result unit) * gset handle :=
  match es with
  | [] => ([], s)
  | e :: rest =>
      let '(o, s') := websocket_endpoint raised e s in
      let '(os, s'') := websocket_trace raised rest s' in
      (o :: os, s'')
  end.

(** A trace of connection life cycles as the server produces them: every
    [WebSocket] object is accepted once (fresh identity) and its receive loop
    ends at most once, after the accept.  [opened] are the connections
    whose loop is running, [seen] the identities used so far. *)
Fixpoint lifecycle (opened seen : gset handle) (es : list ws_event) : bool :=
  match es with
  | [] => true
  | WsAccept h :: rest =>
      bool_decide (h ∉ seen) && lifecycle ({[h]} ∪ opened) ({[h]} ∪ seen) rest
  | WsDisconnect h :: rest | WsAbort h :: rest =>
      bool_decide (h ∈ opened) && lifecycle (opened ∖ {[h]}) seen rest
  end.

(** The broadcast as the specification words it, for comparison with
    [send_data_to_subscribers]: the loop walks a copy of the membership
    taken when the broadcast starts. *)
Fixpoint snapshot_loop (json_dumps : list ProcessedAgentData -> option string)
    (send_ok : handle -> bool) (data : list ProcessedAgentData)
    (snapshot : list handle) (sched : list (list flow_event)) (w : World)
  : result unit * World :=
  match snapshot with
  | [] => (Ok tt, w)
  | h :: rest =>
      match send_one json_dumps send_ok data h (hd [] sched) w with
      | (Ok _, w') => snapshot_loop json_dumps send_ok data rest (tl sched) w'
      | (Raise e, w') => (Raise e, w')
      end
  end.

Definition snapshot_broadcast (json_dumps : list ProcessedAgentData -> option string)
    (send_ok : handle -> bool) (data : list ProcessedAgentData)
    (sched : list (list flow_event)) (w : World) : result unit * World :=
  snapshot_loop json_dumps send_ok data (elements (subscriptions w)) sched w.

(** The rows that [insert_all] appends: the units of the batch, numbered
    from the sequence value [n] on. *)
Fixpoint assign (n : Z) (data : list ProcessedAgentData) : list ProcessedAgentDataInDB :=
  match data with
  | [] => []
  | u :: rest => values n u :: assign (n + 1) rest
  end.

(** Identifiers are unique and below the sequence, and the identifiers of
    [dead] have been handed out and are in use no more. *)
Definition table_inv (dead : list Z) (rs : list ProcessedAgentDataInDB) (n : Z) : Prop :=
  NoDup (ids rs) /\
  (forall j, j ∈ ids rs -> j < n) /\
  (forall j, j ∈ dead -> j < n /\ j ∉ ids rs).

Definition db_inv (dead : list Z) (d : Database) : Prop :=
  table_inv dead (rows d) (next_id d).

Definition session_inv (dead : list Z) (s : Session) : Prop :=
  table_inv dead (committed s) (sequence s) /\
  table_inv dead (pending s) (sequence s).

Definition preserves {A} (P : Session -> Prop) (m : M A) : Prop :=
  forall s, P s -> P (snd (m s)).

(** ** Sample values for the worked examples *)

Definition sample_time : datetime :=
  {| year := 2024; month := 1; day := 1;
     hour := 0; minute := 0; second := 0; microsecond := 0;
     utcoffset := None |}.

(** [{road_state:"good", accelerometer:{x:1.0,y:2.0,z:3.0},
      gps:{latitude:10.0,longitude:20.0}, timestamp:"2024-01-01T00:00:00"}] *)
Definition sample_unit : ProcessedAgentData :=
  {| road_state := "good";
     agent_data := {| accelerometer := {| x := 1.0%float; y := 2.0%float; z := 3.0%float |};
                      gps := {| latitude := 10.0%float; longitude := 20.0%float |};
                      timestamp := sample_time |} |}.

Definition sample_raw (ts : pyvalue) : RawProcessedAgentData :=
  {| raw_road_state := "good";
     raw_accelerometer := {| x := 1.0%float; y := 2.0%float; z := 3.0%float |};
     raw_gps := {| latitude := 10.0%float; longitude := 20.0%float |};
     raw_timestamp := ts |}.

(** [datetime.fromisoformat] on the strings of the examples: it parses the
    ISO 8601 one and refuses "not-a-date" and "1700000000". *)
Definition sample_fromisoformat (s : string) : option datetime :=
  if bool_decide (s = "2024-01-01T00:00:00") then Some sample_time else None.

(** 2023-11-14T22:13:20, the reading of a UTC clock 1700000000 seconds
    after the epoch. *)
Definition unix_1700000000 : datetime :=
  {| year := 2023; month := 11; day := 14;
     hour := 22; minute := 13; second := 20; microsecond := 0;
     utcoffset := None |}.

(** The same instant as pydantic returns it for a Unix time: with the
    offset of UTC. *)
Definition unix_1700000000_utc : datetime :=
  {| year := 2023; month := 11; day := 14;
     hour := 22; minute := 13; second := 20; microsecond := 0;
     utcoffset := Some 0 |}.

(** pydantic's validation of a [datetime] field on the values of the
    examples: a datetime is kept, the ISO 8601 string is parsed, a number
    or a string of digits is read as Unix time, "not-a-date" is refused. *)
Definition sample_datetime_schema (v : pyvalue) : option datetime :=
  match v with
  | PyDatetime d => Some d
  | PyStr s =>
      if bool_decide (s = "2024-01-01T00:00:00") then Some sample_time
      else if bool_decide (s = "1700000000") then Some unix_1700000000_utc
      else None
  | PyInt n => if bool_decide (n = 1700000000) then Some unix_1700000000_utc else None
  | PyNone => None
  end.

(** [json.dumps] as the standard encoder behaves on what the handler passes
    it: the empty list is encoded; a list holding pydantic models is refused
    with [TypeError], the models being no dict, list, string or number. *)
Definition sample_json_dumps (data : list ProcessedAgentData) : option string :=
  match data with
  | [] => Some "[]"
  | _ :: _ => None
  end.

Definition sample_world (subs : gset handle) : World :=
  {| db := empty_database; subscriptions := subs; sent := [] |}.

(** ** The session monad *)

Lemma preserves_ret {A} (P : Session -> Prop) (a : A) : preserves P (ret a).
Proof. intros s Hs. exact Hs. Qed.

Lemma preserves_raise {A} (P : Session -> Prop) (e : exn) :
  preserves P (@raise A e).
Proof. intros s Hs. exact Hs. Qed.

Lemma preserves_bind {A B} (P : Session -> Prop) (m : M A) (k : A -> M B) :
  preserves P m -> (forall a, preserves P (k a)) -> preserves P (bind m k).
Proof.
  intros Hm Hk s Hs. unfold bind.
  specialize (Hm s Hs). destruct (m s) as [[a|e] s']; simpl in *.
  - apply Hk, Hm.
  - exact Hm.
Qed.

Lemma statement_ok (s : Session) :
  fault s ≠ Some (issued s) ->
  statement s = (Ok tt, {| committed := committed s; pending := pending s;
                           sequence := sequence s; issued := S (issued s);
                           fault := fault s |}).
Proof. intros H. unfold statement. rewrite bool_decide_eq_false_2; done. Qed.

Lemma statement_fails (s : Session) :
  fault s = Some (issued s) ->
  statement s = (Raise SQLAlchemyError,
                 {| committed := committed s; pending := pending s;
                    sequence := sequence s; issued := S (issued s);
                    fault := fault s |}).
Proof. intros H. unfold statement. rewrite bool_decide_eq_true_2; done. Qed.

Lemma preserves_statement (dead : list Z) : preserves (session_inv dead) statement.
Proof.
  intros s Hs. unfold statement. case_bool_decide; exact Hs.
Qed.

Lemma ids_app (l1 l2 : list ProcessedAgentDataInDB) : ids (l1 ++ l2) = ids l1 ++ ids l2.
Proof. apply List.map_app. Qed.

Lemma ids_update (i : Z) (u : ProcessedAgentData) (l : list ProcessedAgentDataInDB) :
  ids (List.map (fun r => if has_id i r then values i u else r) l) = ids l.
Proof.
  unfold ids. rewrite List.map_map. apply List.map_ext. intros r.
  unfold has_id. case_bool_decide; simpl; congruence.
Qed.

Lemma elem_of_ids (j : Z) (l : list ProcessedAgentDataInDB) :
  j ∈ ids l <-> exists r, r ∈ l /\ db_id r = j.
Proof.
  unfold ids. rewrite !list_elem_of_In, List.in_map_iff.
  split; intros (r & H1 & H2); exists r; rewrite ?list_elem_of_In in *; auto.
Qed.

Lemma ids_delete (i j : Z) (l : list ProcessedAgentDataInDB) :
  j ∈ ids (List.filter (fun r => negb (has_id i r)) l) <-> j ∈ ids l /\ j ≠ i.
Proof.
  rewrite !elem_of_ids. split.
  - intros (r & Hr & <-). apply list_elem_of_In, List.filter_In in Hr as [Hr Hn].
    unfold has_id in Hn. apply negb_true_iff, bool_decide_eq_false in Hn.
    split; [exists r; split; [by apply list_elem_of_In | done] | done].
  - intros [(r & Hr & <-) Hne]. exists r. split; [|done].
    apply list_elem_of_In, List.filter_In. split; [by apply list_elem_of_In|].
    unfold has_id. apply negb_true_iff, bool_decide_eq_false. done.
Qed.

Lemma NoDup_ids_delete (i : Z) (l : list ProcessedAgentDataInDB) :
  NoDup (ids l) -> NoDup (ids (List.filter (fun r => negb (has_id i r)) l)).
Proof.
  induction l as [|r l IH]; simpl; intros H; [constructor|].
  apply NoDup_cons in H as [Hr Hl].
  destruct (negb (has_id i r)); simpl; auto.
  apply NoDup_cons. split; [|auto].
  intros Hin. apply ids_delete in Hin as [Hin _]. done.
Qed.

Lemma find_none_ids (i : Z) (l : list ProcessedAgentDataInDB) :
  List.find (has_id i) l = None <-> i ∉ ids l.
Proof.
  induction l as [|r l IH]; simpl.
  - split; [intros _; apply not_elem_of_nil | done].
  - unfold has_id at 1. case_bool_decide as Hr.
    + split; [done|]. intros H. exfalso. apply H. rewrite Hr. apply list_elem_of_here.
    + rewrite IH, not_elem_of_cons.
      split; [intros ?; split; [congruence | done] | intros [_ ?]; done].
Qed.

Lemma find_some_ids (i : Z) (l : list ProcessedAgentDataInDB) (r : ProcessedAgentDataInDB) :
  List.find (has_id i) l = Some r -> r ∈ l /\ db_id r = i.
Proof.
  intros H. apply List.find_some in H as [H1 H2].
  unfold has_id in H2. apply bool_decide_eq_true in H2.
  split; [by apply list_elem_of_In | done].
Qed.

(** ** Every statement keeps the table invariant *)

Lemma table_inv_insert (dead : list Z) (rs : list ProcessedAgentDataInDB)
    (n : Z) (u : ProcessedAgentData) :
  table_inv dead rs n -> table_inv dead (rs ++ [values n u]) (n + 1).
Proof.
  intros (Hnd & Hlt & Hdead). unfold table_inv. rewrite ids_app. simpl.
  split; [|split].
  - apply NoDup_app. split; [done|]. split; [|apply NoDup_singleton].
    intros j Hj Hj'. apply list_elem_of_singleton in Hj'. subst j.
    specialize (Hlt _ Hj). lia.
  - intros j Hj. apply elem_of_app in Hj as [Hj|Hj].
    + specialize (Hlt _ Hj). lia.
    + apply list_elem_of_singleton in Hj. lia.
  - intros j Hj. destruct (Hdead _ Hj) as [Hj1 Hj2]. split; [lia|].
    rewrite not_elem_of_app. split; [done|].
    intros Hj'. apply list_elem_of_singleton in Hj'. lia.
Qed.

Lemma table_inv_grow (dead : list Z) (rs : list ProcessedAgentDataInDB) (n : Z) :
  table_inv dead rs n -> table_inv dead rs (n + 1).
Proof.
  intros (Hnd & Hlt & Hdead). split; [done|]. split.
  - intros j Hj. specialize (Hlt _ Hj). lia.
  - intros j Hj. destruct (Hdead _ Hj). split; [lia | done].
Qed.

Lemma table_inv_update (dead : list Z) (rs : list ProcessedAgentDataInDB)
    (n i : Z) (u : ProcessedAgentData) :
  table_inv dead rs n ->
  table_inv dead (List.map (fun r => if has_id i r then values i u else r) rs) n.
Proof. unfold table_inv. rewrite ids_update. done. Qed.

Lemma table_inv_delete (dead : list Z) (rs : list ProcessedAgentDataInDB) (n i : Z) :
  table_inv dead rs n ->
  table_inv dead (List.filter (fun r => negb (has_id i r)) rs) n.
Proof.
  intros (Hnd & Hlt & Hdead). split; [by apply NoDup_ids_delete|]. split.
  - intros j Hj. apply ids_delete in Hj as [Hj _]. auto.
  - intros j Hj. destruct (Hdead _ Hj) as [Hj1 Hj2]. split; [done|].
    intros Hj'. apply ids_delete in Hj' as [Hj' _]. done.
Qed.

Lemma preserves_execute_insert (dead : list Z) (u : ProcessedAgentData) :
  preserves (session_inv dead) (execute_insert u).
Proof.
  apply preserves_bind; [apply preserves_statement|].
  intros _ s [Hc Hp]. split; simpl.
  - by apply table_inv_grow.
  - by apply table_inv_insert.
Qed.

Lemma preserves_execute_select_first (dead : list Z) (i : Z) :
  preserves (session_inv dead) (execute_select_first i).
Proof.
  apply preserves_bind; [apply preserves_statement|]. intros _ s Hs. exact Hs.
Qed.

Lemma preserves_execute_select (dead : list Z) :
  preserves (session_inv dead) (execute_select tt).
Proof.
  apply preserves_bind; [apply preserves_statement|]. intros _ s Hs. exact Hs.
Qed.

Lemma preserves_execute_update (dead : list Z) (i : Z) (u : ProcessedAgentData) :
  preserves (session_inv dead) (execute_update i u).
Proof.
  apply preserves_bind; [apply preserves_statement|].
  intros _ s [Hc Hp]. split; simpl; [done | by apply table_inv_update].
Qed.

Lemma preserves_execute_delete (dead : list Z) (i : Z) :
  preserves (session_inv dead) (execute_delete i).
Proof.
  apply preserves_bind; [apply preserves_statement|].
  intros _ s [Hc Hp]. split; simpl; [done | by apply table_inv_delete].
Qed.

Lemma preserves_commit (dead : list Z) : preserves (session_inv dead) commit.
Proof.
  intros s Hs. unfold commit. case_bool_decide; [exact Hs|].
  refine (preserves_bind _ statement _ (preserves_statement dead) _ s Hs).
  intros _ s' [Hc Hp]. split; simpl; done.
Qed.

Lemma preserves_insert_all (dead : list Z) (data : list ProcessedAgentData) :
  preserves (session_inv dead) (insert_all data).
Proof.
  induction data as [|u data IH]; simpl.
  - apply preserves_ret.
  - apply preserves_bind; [apply preserves_execute_insert | intros _; exact IH].
Qed.

Create HintDb session.

#[local] Hint Resolve preserves_ret preserves_raise preserves_statement
  preserves_execute_insert preserves_execute_select_first preserves_execute_select
  preserves_execute_update preserves_execute_delete preserves_commit
  preserves_insert_all : session.

Ltac session_steps :=
  repeat first
    [ solve [auto with session]
    | apply preserves_bind; [solve [auto with session] | intros ?]
    | match goal with |- preserves _ (match ?o with _ => _ end) => destruct o end ].

Lemma with_session_inv {A} (dead : list Z) (flt : option nat) (body : M A)
    (d : Database) :
  preserves (session_inv dead) body -> db_inv dead d ->
  db_inv dead (snd (with_session flt body d)).
Proof.
  intros Hb Hd. unfold with_session.
  match goal with |- context [body ?s0] => specialize (Hb s0); set (s := s0) in * end.
  destruct (body s) as [r s'] eqn:E. simpl in *.
  apply Hb. split; exact Hd.
Qed.

Lemma serve_inv (dead : list Z) (q : request) (d : Database) :
  db_inv dead d -> db_inv dead (serve q d).
Proof.
  intros Hd. destruct q; simpl;
    apply with_session_inv; try done; session_steps.
Qed.

Lemma serve_all_inv (dead : list Z) (qs : list request) (d : Database) :
  db_inv dead d -> db_inv dead (serve_all qs d).
Proof.
  revert d. induction qs as [|q qs IH]; intros d Hd; simpl; [done|].
  apply IH, serve_inv, Hd.
Qed.

Lemma empty_database_inv : db_inv [] empty_database.
Proof.
  split; [constructor|]. split; intros j Hj; by apply elem_of_nil in Hj.
Qed.

Lemma reachable_inv (d : Database) : reachable d -> db_inv [] d.
Proof. intros [qs <-]. apply serve_all_inv, empty_database_inv. Qed.

(** ** What the handlers compute *)

Lemma database_eta (d : Database) : {| rows := rows d; next_id := next_id d |} = d.
Proof. by destruct d. Qed.

Lemma read_absent (flt : option nat) (i : Z) (d : Database) :
  i ∉ ids (rows d) -> flt ≠ Some 0%nat ->
  read_processed_agent_data flt i d
  = (Raise (HTTPException 404 "Requested unit not found"), d).
Proof.
  intros Hi Hf. apply find_none_ids in Hi.
  unfold read_processed_agent_data, with_session, execute_select_first, bind.
  rewrite statement_ok by done. simpl. rewrite Hi. simpl.
  by rewrite database_eta.
Qed.

Lemma read_present (i : Z) (r : ProcessedAgentDataInDB) (d : Database) :
  List.find (has_id i) (rows d) = Some r ->
  read_processed_agent_data None i d = (Ok r, d).
Proof.
  intros Hi.
  unfold read_processed_agent_data, with_session, execute_select_first, bind.
  rewrite statement_ok by done. simpl. rewrite Hi. simpl.
  by rewrite database_eta.
Qed.

Lemma update_absent (flt : option nat) (i : Z) (u : ProcessedAgentData) (d : Database) :
  i ∉ ids (rows d) -> flt ≠ Some 0%nat ->
  update_processed_agent_data flt i u d
  = (Raise (HTTPException 404 "Requested unit not found"), d).
Proof.
  intros Hi Hf. apply find_none_ids in Hi.
  unfold update_processed_agent_data, with_session, execute_select_first, bind.
  rewrite statement_ok by done. simpl. rewrite Hi. simpl.
  by rewrite database_eta.
Qed.

Lemma delete_absent (flt : option nat) (i : Z) (d : Database) :
  i ∉ ids (rows d) -> flt ≠ Some 0%nat ->
  delete_processed_agent_data flt i d
  = (Raise (HTTPException 404 "Requested unit not found"), d).
Proof.
  intros Hi Hf. apply find_none_ids in Hi.
  unfold delete_processed_agent_data, with_session, execute_select_first, bind.
  rewrite statement_ok by done. simpl. rewrite Hi. simpl.
  by rewrite database_eta.
Qed.

Lemma first_statement_fails {A B} (g : unit -> M A) (k : A -> M B) (d : Database) :
  with_session (Some 0%nat) (bind (bind statement g) k) d
  = (Raise SQLAlchemyError, d).
Proof.
  unfold with_session, bind. rewrite statement_fails by done. simpl.
  by rewrite database_eta.
Qed.

Lemma delete_present (i : Z) (r : ProcessedAgentDataInDB) (d : Database) :
  List.find (has_id i) (rows d) = Some r ->
  delete_processed_agent_data None i d
  = (Ok r, {| rows := List.filter (fun r => negb (has_id i r)) (rows d);
              next_id := next_id d |}).
Proof.
  intros Hi.
  unfold delete_processed_agent_data, with_session, execute_select_first,
    execute_delete, commit, bind.
  rewrite statement_ok by done. simpl. rewrite Hi. simpl. done.
Qed.

Lemma list_all (d : Database) :
  list_processed_agent_data None d = (Ok (rows d), d).
Proof.
  unfold list_processed_agent_data, with_session, execute_select, bind. simpl.
  by rewrite database_eta.
Qed.

Lemma insert_all_run (data : list ProcessedAgentData) (s : Session) :
  fault s = None ->
  insert_all data s
  = (Ok tt, {| committed := committed s;
               pending := pending s ++ assign (sequence s) data;
               sequence := sequence s + Z.of_nat (length data);
               issued := (issued s + length data)%nat;
               fault := None |}).
Proof.
  revert s. induction data as [|u data IH]; intros [c p n k f] Hf; simpl in *; subst f.
  - unfold ret. by rewrite app_nil_r, Z.add_0_r, Nat.add_0_r.
  - unfold bind, execute_insert, bind. rewrite statement_ok by done. simpl.
    rewrite IH by done. simpl. rewrite <- app_assoc. simpl.
    replace (n + 1 + Z.of_nat (length data)) with (n + Z.of_nat (S (length data))) by lia.
    replace (S (k + length data)) with (k + S (length data))%nat by lia.
    done.
Qed.

Lemma create_block_ok (data : list ProcessedAgentData) (d : Database) :
  create_block None data d
  = (Ok tt, {| rows := rows d ++ assign (next_id d) data;
               next_id := next_id d + Z.of_nat (length data) |}).
Proof.
  unfold create_block, with_session, bind. rewrite insert_all_run by done.
  unfold commit. simpl. destruct data as [|u data].
  - simpl. by rewrite app_nil_r, Z.add_0_r.
  - rewrite bool_decide_eq_false_2 by done.
    unfold bind. rewrite statement_ok by done. done.
Qed.

(** A failing statement of the block leaves the rows as they were. *)
Lemma insert_all_committed (data : list ProcessedAgentData) (s : Session) :
  committed (snd (insert_all data s)) = committed s.
Proof.
  revert s. induction data as [|u data IH]; intros s; simpl; [done|].
  unfold bind, execute_insert, bind, statement.
  case_bool_decide; simpl; [done|]. by rewrite IH.
Qed.

Lemma create_block_rows (flt : option nat) (data : list ProcessedAgentData)
    (d : Database) :
  is_ok (fst (create_block flt data d)) = false ->
  rows (snd (create_block flt data d)) = rows d.
Proof.
  unfold create_block, with_session, bind.
  match goal with |- context [insert_all data ?s0] =>
    pose proof (insert_all_committed data s0) as Hc;
    destruct (insert_all data s0) as [[[]|e] s1] end; simpl in *.
  - unfold commit. case_bool_decide; [done|].
    unfold bind, statement. case_bool_decide; simpl; done.
  - done.
Qed.

Lemma assign_lookup (n : Z) (data : list ProcessedAgentData) (k : nat)
    (u : ProcessedAgentData) :
  data !! k = Some u -> assign n data !! k = Some (values (n + Z.of_nat k) u).
Proof.
  revert n k. induction data as [|v data IH]; intros n k H; [done|].
  destruct k as [|k]; simpl in *.
  - injection H as ->. by rewrite Z.add_0_r.
  - rewrite (IH _ _ H). do 2 f_equal. lia.
Qed.

Lemma ids_assign_bounds (n : Z) (data : list ProcessedAgentData) (j : Z) :
  j ∈ ids (assign n data) -> n <= j < n + Z.of_nat (length data).
Proof.
  revert n. induction data as [|v data IH]; intros n H; simpl in *.
  - by apply elem_of_nil in H.
  - apply elem_of_cons in H as [->|H]; [lia|]. apply IH in H. lia.
Qed.

Lemma find_assign (n : Z) (data : list ProcessedAgentData) (k : nat)
    (u : ProcessedAgentData) :
  data !! k = Some u ->
  List.find (has_id (n + Z.of_nat k)) (assign n data) = Some (values (n + Z.of_nat k) u).
Proof.
  revert n k. induction data as [|v data IH]; intros n k H; [done|].
  destruct k as [|k]; simpl in *.
  - injection H as ->. unfold has_id. simpl.
    rewrite bool_decide_eq_true_2 by lia. by rewrite Z.add_0_r.
  - specialize (IH (n + 1) k H).
    replace (n + 1 + Z.of_nat k) with (n + Z.pos (Pos.of_succ_nat k)) in IH by lia.
    unfold has_id at 1. simpl. rewrite bool_decide_eq_false_2 by lia.
    exact IH.
Qed.

Lemma find_app_fresh (i : Z) (l1 l2 : list ProcessedAgentDataInDB) :
  i ∉ ids l1 -> List.find (has_id i) (l1 ++ l2) = List.find (has_id i) l2.
Proof.
  intros H. apply find_none_ids in H.
  induction l1 as [|r l1 IH]; simpl in *; [done|].
  destruct (has_id i r); [done | auto].
Qed.

Lemma find_elem (r : ProcessedAgentDataInDB) (l : list ProcessedAgentDataInDB) :
  NoDup (ids l) -> r ∈ l -> List.find (has_id (db_id r)) l = Some r.
Proof.
  induction l as [|r' l IH]; simpl; intros Hnd Hr.
  - by apply elem_of_nil in Hr.
  - apply NoDup_cons in Hnd as [Hr' Hnd]. unfold has_id at 1.
    apply elem_of_cons in Hr as [->|Hr].
    + by rewrite bool_decide_eq_true_2.
    + rewrite bool_decide_eq_false_2; [auto|].
      intros E. apply Hr'. rewrite E. apply elem_of_ids. by exists r.
Qed.

(** ** The broadcast loop *)

Lemma world_eta (w : World) : set_subscriptions (subscriptions w) w = w.
Proof. by destruct w. Qed.

Lemma send_one_db (json_dumps : list ProcessedAgentData -> option string)
    (send_ok : handle -> bool) (data : list ProcessedAgentData) (h : handle)
    (es : list flow_event) (w : World) :
  db (snd (send_one json_dumps send_ok data h es w)) = db w.
Proof.
  unfold send_one. destruct (json_dumps data); [|done].
  destruct (send_ok h); done.
Qed.

(** The loop always comes to an end within the steps it is given. *)
Lemma send_loop_total (json_dumps : list ProcessedAgentData -> option string)
    (send_ok : handle -> bool) (data : list ProcessedAgentData) (fuel : nat)
    (it : set_iterator) (sched : list (list flow_event)) (w : World) :
  (si_used it - si_pos it < fuel)%nat ->
  is_Some (send_loop json_dumps send_ok fuel data it sched w).
Proof.
  revert it sched w. induction fuel as [|fuel IH]; intros it sched w Hf; [lia|].
  simpl. unfold setiter_next. case_bool_decide as Hsz; [|by eexists].
  destruct (elements (subscriptions w) !! si_pos it) as [h|] eqn:E; [|by eexists].
  apply lookup_lt_Some in E. change (length (elements (subscriptions w))) with (size (subscriptions w)) in E.
  destruct (send_one json_dumps send_ok data h (hd [] sched) w) as [[[]|e] w'];
    [|by eexists].
  apply IH. simpl. lia.
Qed.

Lemma send_data_to_subscribers_total
    (json_dumps : list ProcessedAgentData -> option string)
    (send_ok : handle -> bool) (data : list ProcessedAgentData)
    (sched : list (list flow_event)) (w : World) :
  is_Some (send_data_to_subscribers json_dumps send_ok data sched w).
Proof. apply send_loop_total. simpl. lia. Qed.

Lemma send_loop_db (json_dumps : list ProcessedAgentData -> option string)
    (send_ok : handle -> bool) (data : list ProcessedAgentData) (fuel : nat)
    (it : set_iterator) (sched : list (list flow_event)) (w w' : World)
    (r : result unit) :
  send_loop json_dumps send_ok fuel data it sched w = Some (r, w') -> db w' = db w.
Proof.
  revert it sched w. induction fuel as [|fuel IH]; intros it sched w H; [done|].
  simpl in H. destruct (setiter_next it (subscriptions w)) as [| |h it'].
  - by injection H as _ <-.
  - by injection H as _ <-.
  - pose proof (send_one_db json_dumps send_ok data h (hd [] sched) w) as Hd.
    destruct (send_one json_dumps send_ok data h (hd [] sched) w) as [[[]|e] w1];
      simpl in Hd.
    + apply IH in H. congruence.
    + injection H as _ <-. done.
Qed.

(** With nothing interleaved, the live loop and the loop over a copy do the
    same. *)
Lemma send_loop_quiet (json_dumps : list ProcessedAgentData -> option string)
    (send_ok : handle -> bool) (data : list ProcessedAgentData) (fuel : nat)
    (it : set_iterator) (w : World) :
  si_used it = size (subscriptions w) ->
  (si_used it - si_pos it < fuel)%nat ->
  send_loop json_dumps send_ok fuel data it [] w
  = Some (snapshot_loop json_dumps send_ok data
            (drop (si_pos it) (elements (subscriptions w))) [] w).
Proof.
  revert it w. induction fuel as [|fuel IH]; intros it w Hu Hf; [lia|].
  simpl. unfold setiter_next. rewrite bool_decide_eq_true_2 by done.
  destruct (elements (subscriptions w) !! si_pos it) as [h|] eqn:E.
  - rewrite (drop_S _ _ _ E). simpl.
    pose proof (lookup_lt_Some _ _ _ E) as Hlt.
    change (length (elements (subscriptions w))) with (size (subscriptions w)) in Hlt.
    unfold send_one. simpl. rewrite world_eta.
    destruct (json_dumps data) as [p|]; [|done].
    destruct (send_ok h); [|done].
    rewrite IH; [done | done | simpl; lia].
  - apply lookup_ge_None in E. by rewrite drop_ge.
Qed.

Lemma snapshot_loop_quiet_ok (json_dumps : list ProcessedAgentData -> option string)
    (send_ok : handle -> bool) (data : list ProcessedAgentData) (p : string)
    (hs : list handle) (w : World) :
  json_dumps data = Some p ->
  Forall (fun h => send_ok h = true) hs ->
  snapshot_loop json_dumps send_ok data hs [] w
  = (Ok tt, {| db := db w; subscriptions := subscriptions w;
               sent := sent w ++ ((fun h => (h, p)) <$> hs) |}).
Proof.
  intros Hp. revert w. induction hs as [|h hs IH]; intros w Hall; simpl.
  - rewrite app_nil_r. by destruct w.
  - apply Forall_cons in Hall as [Hh Hall].
    unfold send_one. simpl. rewrite Hp, Hh, world_eta, IH by done. simpl.
    by rewrite <- app_assoc.
Qed.

Lemma snapshot_loop_quiet_fail (json_dumps : list ProcessedAgentData -> option string)
    (send_ok : handle -> bool) (data : list ProcessedAgentData) (p : string)
    (pre post : list handle) (h : handle) (w : World) :
  json_dumps data = Some p ->
  Forall (fun h => send_ok h = true) pre ->
  send_ok h = false ->
  snapshot_loop json_dumps send_ok data (pre ++ h :: post) [] w
  = (Raise WebSocketSendError,
     {| db := db w; subscriptions := subscriptions w;
        sent := sent w ++ ((fun h => (h, p)) <$> pre) |}).
Proof.
  intros Hp. revert w. induction pre as [|h' pre IH]; intros w Hall Hh; simpl.
  - unfold send_one. simpl. rewrite Hp, Hh, world_eta, app_nil_r. by destruct w.
  - apply Forall_cons in Hall as [Hh' Hall].
    unfold send_one. simpl. rewrite Hp, Hh', world_eta, IH by done. simpl.
    by rewrite <- app_assoc.
Qed.

(** ** Read, update and delete of an absent identifier *)

(** C6: for an identifier that no row of the table carries, read, update and
    delete leave the table exactly as it was, whatever the database does, and
    (the lookup itself having gone through) each raises the 404
    [HTTPException], a status that is neither the 422 of a validation error
    nor the 500 of a server error; update issues no write. *)
Theorem absent_identifier_not_found (flt : option nat) (i : Z)
    (data : ProcessedAgentData) (d : Database) :
  i ∉ ids (rows d) ->
  (snd (read_processed_agent_data flt i d) = d /\
   snd (update_processed_agent_data flt i data d) = d /\
   snd (delete_processed_agent_data flt i d) = d) /\
  (flt ≠ Some 0%nat ->
   fst (read_processed_agent_data flt i d)
     = Raise (HTTPException 404 "Requested unit not found") /\
   fst (update_processed_agent_data flt i data d)
     = Raise (HTTPException 404 "Requested unit not found") /\
   fst (delete_processed_agent_data flt i d)
     = Raise (HTTPException 404 "Requested unit not found") /\
   status_of (fst (read_processed_agent_data flt i d)) = 404 /\
   status_of (fst (update_processed_agent_data flt i data d)) = 404 /\
   status_of (fst (delete_processed_agent_data flt i d)) = 404).
Proof.
  intros Hi. split.
  - destruct (decide (flt = Some 0%nat)) as [->|Hf].
    + unfold read_processed_agent_data, update_processed_agent_data,
        delete_processed_agent_data, execute_select_first.
      rewrite !first_statement_fails. done.
    + by rewrite read_absent, update_absent, delete_absent.
  - intros Hf. by rewrite read_absent, update_absent, delete_absent.
Qed.

Lemma absent_identifier_not_found_witness :
  (7 ∉ ids (rows empty_database)) /\
  (snd (read_processed_agent_data None 7 empty_database) = empty_database /\
   snd (update_processed_agent_data None 7 sample_unit empty_database) = empty_database /\
   snd (delete_processed_agent_data None 7 empty_database) = empty_database) /\
  status_of (fst (update_processed_agent_data None 7 sample_unit empty_database)) = 404.
Proof.
  assert (H : 7 ∉ ids (rows empty_database)) by apply not_elem_of_nil.
  destruct (absent_identifier_not_found None 7 sample_unit empty_database H)
    as [Hsame Hnf].
  split; [exact H|]. split; [exact Hsame|].
  apply Hnf. discriminate.
Defined.

(** ** Delete *)

(** C7: in a table the service can reach, deleting the identifier of a row
    that is present returns that row and removes it; from then on, after any
    further requests whatever, a read of that identifier raises the 404
    [HTTPException], and so does a second delete, which changes nothing. *)
Theorem delete_then_not_found (r : ProcessedAgentDataInDB) (d : Database)
    (qs : list request) :
  reachable d -> r ∈ rows d ->
  let i := db_id r in
  let d' := snd (delete_processed_agent_data None i d) in
  fst (delete_processed_agent_data None i d) = Ok r /\
  (i ∉ ids (rows d')) /\
  (forall j, j ∈ ids (rows d') <-> j ∈ ids (rows d) /\ j ≠ i) /\
  delete_processed_agent_data None i d'
    = (Raise (HTTPException 404 "Requested unit not found"), d') /\
  read_processed_agent_data None i (serve_all qs d')
    = (Raise (HTTPException 404 "Requested unit not found"), serve_all qs d') /\
  delete_processed_agent_data None i (serve_all qs d')
    = (Raise (HTTPException 404 "Requested unit not found"), serve_all qs d').
Proof.
  intros Hreach Hr i d'. apply reachable_inv in Hreach as Hinv.
  destruct Hinv as (Hnd & Hlt & _).
  pose proof (find_elem r (rows d) Hnd Hr) as Hfind. fold i in Hfind.
  pose proof (delete_present i r d Hfind) as Hdel.
  assert (Hd' : d' = {| rows := List.filter (fun r => negb (has_id i r)) (rows d);
                        next_id := next_id d |}) by (unfold d'; by rewrite Hdel).
  assert (Hgone : i ∉ ids (rows d')).
  { rewrite Hd'. simpl. intros Hin. apply ids_delete in Hin as [_ Hne]. done. }
  assert (Hinv' : db_inv [i] d').
  { rewrite Hd'. split; [by apply NoDup_ids_delete|]. split; simpl.
    - intros j Hj. apply ids_delete in Hj as [Hj _]. auto.
    - intros j Hj. apply list_elem_of_singleton in Hj. subst j. split.
      + apply Hlt, elem_of_ids. by exists r.
      + intros Hin. apply ids_delete in Hin as [_ Hne]. done. }
  assert (Hlater : i ∉ ids (rows (serve_all qs d'))).
  { apply (serve_all_inv [i] qs) in Hinv'. destruct Hinv' as (_ & _ & Hdead).
    apply Hdead, list_elem_of_singleton. done. }
  split; [by rewrite Hdel|]. split; [done|]. split.
  { intros j. rewrite Hd'. simpl. apply ids_delete. }
  split; [by apply delete_absent|].
  split; [by apply read_absent | by apply delete_absent].
Qed.

Lemma delete_then_not_found_witness :
  let d := snd (create_block None [sample_unit; sample_unit] empty_database) in
  let r := values 1 sample_unit in
  (reachable d /\ r ∈ rows d) /\
  fst (delete_processed_agent_data None 1 d) = Ok r /\
  read_processed_agent_data None 1
    (serve_all [Create None [sample_unit]]
       (snd (delete_processed_agent_data None 1 d)))
  = (Raise (HTTPException 404 "Requested unit not found"),
     serve_all [Create None [sample_unit]]
       (snd (delete_processed_agent_data None 1 d))).
Proof.
  intros d r.
  assert (Hreach : reachable d)
    by (exists [Create None [sample_unit; sample_unit]]; reflexivity).
  assert (Hr : r ∈ rows d) by (vm_compute; apply list_elem_of_here).
  destruct (delete_then_not_found r d [Create None [sample_unit]] Hreach Hr)
    as (H1 & _ & _ & _ & H2 & _).
  split; [split; [exact Hreach | exact Hr]|].
  split; [exact H1 | exact H2].
Defined.

(** ** List *)

(** C10: listing succeeds on every table.  Executing the select returns a
    result object, never [None], so the 404 branch is not taken: the answer
    is the rows of the table (the empty list for the empty table), and under
    a database fault it is the fault's exception, never a 404. *)
Theorem list_never_not_found (flt : option nat) (d : Database) :
  list_processed_agent_data None d = (Ok (rows d), d) /\
  list_processed_agent_data None empty_database = (Ok [], empty_database) /\
  (fst (list_processed_agent_data flt d) = Ok (rows d) \/
   fst (list_processed_agent_data flt d) = Raise SQLAlchemyError) /\
  status_of (fst (list_processed_agent_data flt d)) ≠ 404 /\
  snd (list_processed_agent_data flt d) = d.
Proof.
  split; [apply list_all|]. split; [apply list_all|].
  unfold list_processed_agent_data, with_session, execute_select, bind, statement.
  simpl. case_bool_decide; simpl; rewrite database_eta.
  - split; [by right|]. done.
  - split; [by left|]. done.
Qed.

(** ** Create *)

Lemma serve_all_snoc (qs : list request) (q : request) (d : Database) :
  serve_all (qs ++ [q]) d = serve q (serve_all qs d).
Proof. unfold serve_all. by rewrite fold_left_app. Qed.

Lemma reachable_serve (q : request) (d : Database) :
  reachable d -> reachable (serve q d).
Proof. intros [qs <-]. exists (qs ++ [q]). apply serve_all_snoc. Qed.

(** The handler always answers, and the table it leaves is the one the
    session block left. *)
Lemma create_runs (json_dumps : list ProcessedAgentData -> option string)
    (send_ok : handle -> bool) (flt : option nat) (sched : list (list flow_event))
    (data : list ProcessedAgentData) (w : World) :
  exists r w',
    create_processed_agent_data json_dumps send_ok flt sched data w = Some (r, w') /\
    db w' = snd (create_block flt data (db w)) /\
    (is_ok (fst (create_block flt data (db w))) = false ->
     r = fst (create_block flt data (db w)) /\ sent w' = sent w /\
     subscriptions w' = subscriptions w).
Proof.
  unfold create_processed_agent_data. fold (create_block flt data (db w)).
  destruct (create_block flt data (db w)) as [[[]|e] d1] eqn:E; simpl.
  - destruct (send_data_to_subscribers_total json_dumps send_ok data sched
                (set_db d1 w)) as [[r w'] H].
    exists r, w'. split; [done|]. split; [|done].
    apply send_loop_db in H. done.
  - exists (Raise e), (set_db d1 w). done.
Qed.

(** What a row holds of the unit it was written from. *)
Lemma values_fields (i : Z) (u : ProcessedAgentData) :
  db_id (values i u) = i /\
  db_road_state (values i u) = road_state u /\
  Forall (fun '(f, g) => if PrimFloat.eqb f zero then g = zero else g = f)
    [(x (accelerometer (agent_data u)), db_x (values i u));
     (y (accelerometer (agent_data u)), db_y (values i u));
     (z (accelerometer (agent_data u)), db_z (values i u));
     (latitude (gps (agent_data u)), db_latitude (values i u));
     (longitude (gps (agent_data u)), db_longitude (values i u))] /\
  (utcoffset (timestamp (agent_data u)) = None ->
   db_timestamp (values i u) = timestamp (agent_data u)) /\
  utcoffset (db_timestamp (values i u)) = None.
Proof.
  split; [done|]. split; [done|]. split; [|split].
  - repeat constructor; simpl; unfold column_float;
      match goal with |- context [PrimFloat.eqb ?f zero] =>
        destruct (PrimFloat.eqb f zero) end; done.
  - simpl. unfold column_timestamp. by intros ->.
  - simpl. unfold column_timestamp.
    destruct (utcoffset (timestamp (agent_data u))) as [off|] eqn:E; [|done].
    unfold at_wall_seconds. by destruct (civil_from_days _) as [[? ?] ?].
Qed.

(** C3, as the code has it: in a table the service can reach, the create
    handler, the database working, stores every unit of the batch under an
    identifier drawn from the table's sequence (the request carries none),
    and a read of that identifier returns a row with the unit's road_state;
    with its x, y, z, latitude and longitude, except that a zero of either
    sign reads back as positive zero; and with its timestamp when that is
    naive, while a timestamp that carries a UTC offset reads back as a
    naive one, its offset not kept.  No two rows share an identifier,
    before or after, and the table left is again one the service can
    reach. *)
Theorem created_records_retrievable
    (json_dumps : list ProcessedAgentData -> option string)
    (send_ok : handle -> bool) (sched : list (list flow_event))
    (data : list ProcessedAgentData) (w : World) :
  reachable (db w) ->
  exists r w',
    create_processed_agent_data json_dumps send_ok None sched data w = Some (r, w') /\
    (forall k u, data !! k = Some u ->
       exists row,
         read_processed_agent_data None (next_id (db w) + Z.of_nat k) (db w')
         = (Ok row, db w') /\
         db_id row = next_id (db w) + Z.of_nat k /\
         db_road_state row = road_state u /\
         Forall (fun '(f, g) => if PrimFloat.eqb f zero then g = zero else g = f)
           [(x (accelerometer (agent_data u)), db_x row);
            (y (accelerometer (agent_data u)), db_y row);
            (z (accelerometer (agent_data u)), db_z row);
            (latitude (gps (agent_data u)), db_latitude row);
            (longitude (gps (agent_data u)), db_longitude row)] /\
         (utcoffset (timestamp (agent_data u)) = None ->
          db_timestamp row = timestamp (agent_data u)) /\
         utcoffset (db_timestamp row) = None) /\
    NoDup (ids (rows (db w))) /\
    NoDup (ids (rows (db w'))) /\
    reachable (db w').
Proof.
  intros Hreach.
  destruct (create_runs json_dumps send_ok None sched data w)
    as (r & w' & Hrun & Hdb & _).
  exists r, w'. split; [exact Hrun|].
  assert (Hreach' : reachable (db w')).
  { rewrite Hdb. apply (reachable_serve (Create None data)), Hreach. }
  pose proof (reachable_inv _ Hreach) as (Hnd & Hlt & _).
  pose proof (reachable_inv _ Hreach') as (Hnd' & _ & _).
  split; [|done].
  intros k u Hk. exists (values (next_id (db w) + Z.of_nat k) u).
  destruct (values_fields (next_id (db w) + Z.of_nat k) u)
    as (Hid & Hrs & Hfl & Hts & Hoff).
  split; [|done].
  apply read_present.
  rewrite Hdb, create_block_ok. simpl.
  rewrite find_app_fresh.
  - by apply find_assign.
  - intros Hin. apply Hlt in Hin. lia.
Qed.

Lemma created_records_retrievable_witness :
  reachable (db (sample_world {[1%nat]})) /\
  exists r w',
    create_processed_agent_data sample_json_dumps (fun _ => true) None []
      [sample_unit] (sample_world {[1%nat]}) = Some (r, w') /\
    (forall k u, [sample_unit] !! k = Some u ->
       exists row,
         read_processed_agent_data None (1 + Z.of_nat k) (db w') = (Ok row, db w') /\
         db_id row = 1 + Z.of_nat k /\
         db_road_state row = road_state u /\
         Forall (fun '(f, g) => if PrimFloat.eqb f zero then g = zero else g = f)
           [(x (accelerometer (agent_data u)), db_x row);
            (y (accelerometer (agent_data u)), db_y row);
            (z (accelerometer (agent_data u)), db_z row);
            (latitude (gps (agent_data u)), db_latitude row);
            (longitude (gps (agent_data u)), db_longitude row)] /\
         (utcoffset (timestamp (agent_data u)) = None ->
          db_timestamp row = timestamp (agent_data u)) /\
         utcoffset (db_timestamp row) = None) /\
    NoDup (ids (rows (db (sample_world {[1%nat]})))) /\
    NoDup (ids (rows (db w'))) /\
    reachable (db w').
Proof.
  assert (H : reachable (db (sample_world {[1%nat]}))) by (exists []; reflexivity).
  split; [exact H|].
  exact (created_records_retrievable sample_json_dumps (fun _ => true) []
           [sample_unit] (sample_world {[1%nat]}) H).
Defined.

(** C3 as stated fails: a unit whose x is negative zero and whose timestamp
    is 2024-01-01T00:00:00+02:00.  Created in the empty table and read back
    under its identifier 1, it has x positive zero and a timestamp without
    offset: not the field values that were submitted. *)
Lemma stored_fields_counterexample :
  let u := {| road_state := "good";
              agent_data :=
                {| accelerometer := {| x := neg_zero; y := 2.0%float; z := 3.0%float |};
                   gps := {| latitude := 10.0%float; longitude := 20.0%float |};
                   timestamp := {| year := 2024; month := 1; day := 1;
                                   hour := 0; minute := 0; second := 0;
                                   microsecond := 0; utcoffset := Some 7200 |} |} |} in
  create_processed_agent_data sample_json_dumps (fun _ => true) None [] [u]
    (sample_world ∅)
  = Some (Ok tt, {| db := snd (create_block None [u] empty_database);
                    subscriptions := ∅; sent := [] |}) /\
  match fst (read_processed_agent_data None 1
               (snd (create_block None [u] empty_database))) with
  | Ok row =>
      db_road_state row = "good" /\
      classify (db_x row) = FloatClass.PZero /\
      utcoffset (db_timestamp row) = None
  | Raise _ => False
  end /\
  classify (x (accelerometer (agent_data u))) = FloatClass.NZero /\
  utcoffset (timestamp (agent_data u)) = Some 7200.
Proof. repeat split; vm_compute; reflexivity. Qed.

(** ** Validation *)

(** The classmethod object that line 66 leaves in the class body is not a
    [PydanticDescriptorProxy]: the model has no validator of its own for
    [timestamp]. *)
Lemma AgentData_validators (fromisoformat : string -> option datetime) :
  field_validators "timestamp" (AgentData_namespace fromisoformat) = [].
Proof. reflexivity. Qed.

Lemma validate_timestamp_builtin (fromisoformat : string -> option datetime)
    (datetime_schema : pyvalue -> option datetime) (value : pyvalue) :
  validate_timestamp fromisoformat datetime_schema value
  = match datetime_schema value with
    | Some d => Ok d
    | None => Raise (ValueError "Input should be a valid datetime")
    end.
Proof. reflexivity. Qed.

Lemma validate_cases (fromisoformat : string -> option datetime)
    (datetime_schema : pyvalue -> option datetime) (raw : RawProcessedAgentData) :
  validate fromisoformat datetime_schema raw
  = match datetime_schema (raw_timestamp raw) with
    | Some d =>
        Ok {| road_state := raw_road_state raw;
              agent_data := {| accelerometer := raw_accelerometer raw;
                               gps := raw_gps raw; timestamp := d |} |}
    | None => Raise (RequestValidationError "Input should be a valid datetime")
    end.
Proof.
  unfold validate. rewrite validate_timestamp_builtin.
  by destruct (datetime_schema (raw_timestamp raw)).
Qed.

Lemma validate_body_rejects (fromisoformat : string -> option datetime)
    (datetime_schema : pyvalue -> option datetime)
    (body : list RawProcessedAgentData) (raw : RawProcessedAgentData) :
  raw ∈ body -> datetime_schema (raw_timestamp raw) = None ->
  validate_body fromisoformat datetime_schema body
  = Raise (RequestValidationError "Input should be a valid datetime").
Proof.
  induction body as [|r body IH]; intros Hin Hbad.
  - by apply elem_of_nil in Hin.
  - simpl. rewrite validate_cases. apply elem_of_cons in Hin as [<-|Hin].
    + by rewrite Hbad.
    + rewrite (IH Hin Hbad). by destruct (datetime_schema (raw_timestamp r)).
Qed.

(** A body with a timestamp that pydantic's datetime validation refuses is
    answered with a 422 before the handler runs; the process is untouched. *)
Lemma refused_timestamp_rejected (fromisoformat : string -> option datetime)
    (datetime_schema : pyvalue -> option datetime)
    (json_dumps : list ProcessedAgentData -> option string)
    (send_ok : handle -> bool) (flt : option nat) (sched : list (list flow_event))
    (body : list RawProcessedAgentData) (w : World) (raw : RawProcessedAgentData) :
  raw ∈ body -> datetime_schema (raw_timestamp raw) = None ->
  post_processed_agent_data fromisoformat datetime_schema json_dumps send_ok flt
    sched body w
  = Some (Raise (RequestValidationError "Input should be a valid datetime"), w).
Proof.
  intros Hin Hbad. unfold post_processed_agent_data.
  by rewrite (validate_body_rejects _ _ body raw Hin Hbad).
Qed.

(** C8: the code does not reject every malformed timestamp string.
    [check_timestamp] refuses whatever [datetime.fromisoformat] refuses, the
    string "1700000000" for one; but with [@classmethod] applied over
    [@field_validator] the class holds a classmethod object, pydantic
    collects no validator for [timestamp] (it would with the two decorators
    the other way round), and a body is judged by pydantic's own datetime
    validation alone.  That validation reads a string of digits as Unix
    time: the request with timestamp "1700000000" is answered 200 and a row
    dated 2023-11-14T22:13:20 is stored.  "not-a-date" is refused, by
    pydantic, before the handler runs. *)
Theorem timestamp_validator_bypassed :
  check_timestamp sample_fromisoformat (PyStr "1700000000")
    = Raise (ValueError
        "Invalid timestamp format. Expected ISO 8601 format (YYYY-MM-DDTHH:MM:SSZ).") /\
  (forall fromisoformat,
     field_validators "timestamp" (AgentData_namespace fromisoformat) = []) /\
  (forall f,
     field_validators "timestamp"
       [("check_timestamp", field_validator "timestamp" (classmethod (Function f)))]
     = [f]) /\
  (forall fromisoformat datetime_schema raw d,
     datetime_schema (raw_timestamp raw) = Some d ->
     validate fromisoformat datetime_schema raw
     = Ok {| road_state := raw_road_state raw;
             agent_data := {| accelerometer := raw_accelerometer raw;
                              gps := raw_gps raw; timestamp := d |} |}) /\
  post_processed_agent_data sample_fromisoformat sample_datetime_schema
    sample_json_dumps (fun _ => true) None [] [sample_raw (PyStr "1700000000")]
    (sample_world ∅)
  = Some (Ok tt,
          {| db := {| rows := [{| db_id := 1; db_road_state := "good";
                                  db_x := 1.0%float; db_y := 2.0%float;
                                  db_z := 3.0%float;
                                  db_latitude := 10.0%float;
                                  db_longitude := 20.0%float;
                                  db_timestamp := unix_1700000000 |}];
                      next_id := 2 |};
             subscriptions := ∅; sent := [] |}) /\
  post_processed_agent_data sample_fromisoformat sample_datetime_schema
    sample_json_dumps (fun _ => true) None [] [sample_raw (PyStr "not-a-date")]
    (sample_world ∅)
  = Some (Raise (RequestValidationError "Input should be a valid datetime"),
          sample_world ∅).
Proof.
  split; [reflexivity|]. split; [reflexivity|]. split; [reflexivity|].
  split.
  - intros fromisoformat datetime_schema raw d H. by rewrite validate_cases, H.
  - split; vm_compute; reflexivity.
Qed.

(** ** Broadcast follows the commit *)

(** C2: the create endpoint always answers, and a frame is handed to a
    subscriber only when the body passed validation and the session block,
    commit included, went through.  When validation fails, or a statement or
    the commit raises, the request is answered with the exception, nothing
    has been sent and the rows of the table are as before.  When anything
    was sent, the table at that time is the committed one. *)
Theorem broadcast_only_after_commit
    (fromisoformat : string -> option datetime)
    (datetime_schema : pyvalue -> option datetime)
    (json_dumps : list ProcessedAgentData -> option string)
    (send_ok : handle -> bool) (flt : option nat) (sched : list (list flow_event))
    (body : list RawProcessedAgentData) (w : World) :
  exists r w',
    post_processed_agent_data fromisoformat datetime_schema json_dumps send_ok flt
      sched body w = Some (r, w') /\
    (match validate_body fromisoformat datetime_schema body with
     | Ok data => is_ok (fst (create_block flt data (db w)))
     | Raise _ => false
     end = false ->
     sent w' = sent w /\ is_ok r = false /\ rows (db w') = rows (db w)) /\
    (sent w' ≠ sent w ->
     exists data, validate_body fromisoformat datetime_schema body = Ok data /\
                  create_block flt data (db w) = (Ok tt, db w')).
Proof.
  unfold post_processed_agent_data.
  destruct (validate_body fromisoformat datetime_schema body) as [data|e].
  - destruct (create_runs json_dumps send_ok flt sched data w)
      as (r & w' & Hrun & Hdb & Hfail).
    exists r, w'. split; [exact Hrun|]. split.
    + intros Hbad. destruct (Hfail Hbad) as (-> & Hsent & _).
      split; [done|]. split; [done|].
      rewrite Hdb. by apply create_block_rows.
    + intros Hsent. exists data. split; [done|].
      destruct (create_block flt data (db w)) as [[[]|e] d1] eqn:E; simpl in *.
      * by rewrite Hdb.
      * destruct Hfail as (_ & ? & _); done.
  - exists (Raise e), w. split; [done|]. split; [done|]. done.
Qed.

Lemma broadcast_only_after_commit_witness :
  exists r w',
    post_processed_agent_data sample_fromisoformat sample_datetime_schema
      sample_json_dumps (fun _ => true)
      (Some 1%nat) [] [sample_raw (PyStr "2024-01-01T00:00:00")]
      (sample_world {[1%nat; 2%nat]}) = Some (r, w') /\
    sent w' = [] /\ is_ok r = false /\ rows (db w') = [].
Proof.
  destruct (broadcast_only_after_commit sample_fromisoformat sample_datetime_schema
              sample_json_dumps (fun _ => true) (Some 1%nat) []
              [sample_raw (PyStr "2024-01-01T00:00:00")]
              (sample_world {[1%nat; 2%nat]})) as (r & w' & Hrun & Hfail & _).
  exists r, w'. split; [exact Hrun|]. apply Hfail. reflexivity.
Defined.

(** ** The client adapter *)

Lemma join_concat (sep : string) (parts : list string) :
  Hub.join sep parts = String.concat sep parts.
Proof.
  induction parts as [|p parts IH]; [done|].
  destruct parts as [|q parts]; [done|].
  change (Hub.join sep (p :: q :: parts))
    with (p +:+ sep +:+ Hub.join sep (q :: parts)).
  change (String.concat sep (p :: q :: parts))
    with (p +:+ sep +:+ String.concat sep (q :: parts)).
  by rewrite IH.
Qed.

(** C9, as the code has it: [save_data] performs one POST, to the base URL
    followed by [/processed_agent_data], whose body is the records' JSON
    texts, separated by commas, between brackets.  When a response comes
    back it returns [true] exactly when the status is 200
    ([requests.codes.ok]) and [false] for every other status, the other
    success statuses included; the answer depends on the response through
    its status alone, and no second request follows.  When [requests.post]
    raises instead, the exception passes through and no boolean is
    returned. *)
Theorem save_data_one_post (ProcessedAgentData : Type)
    (model_dump_json : ProcessedAgentData -> string)
    (post : Hub.Request -> result Hub.Response) (api_base_url : string)
    (batch : list ProcessedAgentData) :
  let request :=
    {| Hub.url := api_base_url +:+ "/processed_agent_data";
       Hub.body := "[" +:+ String.concat "," (List.map model_dump_json batch) +:+ "]" |} in
  fst (Hub.save_data ProcessedAgentData model_dump_json post api_base_url batch)
    = [request] /\
  snd (Hub.save_data ProcessedAgentData model_dump_json post api_base_url batch)
    = match post request with
      | Ok response => Ok (bool_decide (Hub.status_code response = 200))
      | Raise e => Raise e
      end /\
  (forall (post' : Hub.Request -> result Hub.Response) response response',
     post request = Ok response -> post' request = Ok response' ->
     Hub.status_code response' = Hub.status_code response ->
     Hub.save_data ProcessedAgentData model_dump_json post' api_base_url batch
     = Hub.save_data ProcessedAgentData model_dump_json post api_base_url batch).
Proof.
  intros request. unfold Hub.save_data, Hub.requests_post.
  rewrite join_concat. fold request. unfold Hub.codes_ok.
  split; [|split].
  - destruct (post request) as [response|e]; [case_bool_decide|]; done.
  - destruct (post request) as [response|e]; [|done].
    do 2 case_bool_decide; done.
  - intros post' response response' -> -> ->. done.
Qed.

(** C9 as stated fails: the store answering 201 Created, a success status.
    One request is sent and the adapter returns [False]. *)
Lemma success_status_counterexample :
  Hub.save_data nat (fun n => if bool_decide (n = 0%nat) then "{}" else "{1}")
    (fun _ => Ok {| Hub.status_code := 201; Hub.text := "" |})
    "http://store:8000" [0%nat; 1%nat]
  = ([{| Hub.url := "http://store:8000/processed_agent_data";
         Hub.body := "[{},{1}]" |}], Ok false) /\
  200 <= 201 < 300.
Proof. split; [reflexivity | lia]. Qed.

(** ** A failing send *)

Lemma create_quiet (json_dumps : list ProcessedAgentData -> option string)
    (send_ok : handle -> bool) (data : list ProcessedAgentData) (w : World) :
  create_processed_agent_data json_dumps send_ok None [] data w
  = Some (snapshot_loop json_dumps send_ok data (elements (subscriptions w)) []
            (set_db (snd (create_block None data (db w))) w)).
Proof.
  unfold create_processed_agent_data. fold (create_block None data (db w)).
  rewrite create_block_ok. simpl.
  unfold send_data_to_subscribers. rewrite send_loop_quiet; [done|done|simpl; lia].
Qed.

(** C1, as the code has it: with the batch committed, its JSON text [p]
    produced and no registry change interleaved, a send that fails ends the
    loop.  The handles walked before the failing one have been sent [p],
    the failing one and those after it have not, the registry still holds
    the failing handle, and the exception is the outcome of the create
    request, a 500.  When every send goes through, every handle gets [p]
    once and the request succeeds. *)
Theorem send_failure_aborts_broadcast
    (json_dumps : list ProcessedAgentData -> option string)
    (send_ok : handle -> bool) (data : list ProcessedAgentData) (w : World)
    (p : string) :
  json_dumps data = Some p ->
  (forall pre h post,
     elements (subscriptions w) = pre ++ h :: post ->
     Forall (fun h' => send_ok h' = true) pre ->
     send_ok h = false ->
     create_processed_agent_data json_dumps send_ok None [] data w
     = Some (Raise WebSocketSendError,
             {| db := snd (create_block None data (db w));
                subscriptions := subscriptions w;
                sent := sent w ++ ((fun h' => (h', p)) <$> pre) |}) /\
     h ∈ subscriptions w /\
     status_of (@Raise unit WebSocketSendError) = 500) /\
  (Forall (fun h' => send_ok h' = true) (elements (subscriptions w)) ->
   create_processed_agent_data json_dumps send_ok None [] data w
   = Some (Ok tt,
           {| db := snd (create_block None data (db w));
              subscriptions := subscriptions w;
              sent := sent w ++ ((fun h' => (h', p)) <$> elements (subscriptions w)) |})).
Proof.
  intros Hp. split.
  - intros pre h post Hel Hpre Hh. split; [|split; [|done]].
    + rewrite create_quiet, Hel.
      by rewrite (snapshot_loop_quiet_fail _ _ _ p).
    + apply elem_of_elements. rewrite Hel. apply elem_of_app. right.
      apply list_elem_of_here.
  - intros Hall. rewrite create_quiet.
    by rewrite (snapshot_loop_quiet_ok _ _ _ p).
Qed.

Lemma send_failure_aborts_broadcast_witness :
  sample_json_dumps [] = Some "[]" /\
  create_processed_agent_data sample_json_dumps (fun h => bool_decide (h ≠ 1%nat))
    None [] [] (sample_world {[1%nat; 2%nat]})
  = Some (Raise WebSocketSendError,
          {| db := empty_database; subscriptions := {[1%nat; 2%nat]};
             sent := [(2%nat, "[]")] |}).
Proof.
  assert (Hp : sample_json_dumps [] = Some "[]") by reflexivity.
  split; [exact Hp|].
  destruct (send_failure_aborts_broadcast sample_json_dumps
              (fun h => bool_decide (h ≠ 1%nat)) [] (sample_world {[1%nat; 2%nat]})
              "[]" Hp) as [Hfail _].
  destruct (Hfail [2%nat] 1%nat []) as [Hrun _].
  - reflexivity.
  - repeat constructor.
  - reflexivity.
  - exact Hrun.
Defined.

(** C1 as stated fails: two subscribers, the first one walked (handle 2)
    refusing the frame.  The create request ends with the exception, the
    failing handle is still registered, and the other subscriber (handle 1)
    has been sent nothing. *)
Lemma failing_subscriber_counterexample :
  elements ({[1%nat; 2%nat]} : gset handle) = [2%nat; 1%nat] /\
  create_processed_agent_data sample_json_dumps (fun h => bool_decide (h ≠ 2%nat))
    None [] [] (sample_world {[1%nat; 2%nat]})
  = Some (Raise WebSocketSendError,
          {| db := empty_database; subscriptions := {[1%nat; 2%nat]}; sent := [] |}) /\
  create_processed_agent_data sample_json_dumps (fun _ => true)
    None [] [] (sample_world {[1%nat; 2%nat]})
  = Some (Ok tt,
          {| db := empty_database; subscriptions := {[1%nat; 2%nat]};
             sent := [(2%nat, "[]"); (1%nat, "[]")] |}).
Proof. split; [|split]; vm_compute; reflexivity. Qed.

(** ** Iterating the live set *)

Lemma run_event_membership (e : flow_event) (s : gset handle) (h : handle) :
  h ∈ run_event e s <->
  match e with
  | Connect h' => h = h' \/ h ∈ s
  | Disconnect h' => h ∈ s /\ h ≠ h'
  end.
Proof.
  destruct e as [h'|h']; simpl; unfold set_add, set_remove.
  - rewrite elem_of_union, elem_of_singleton. done.
  - case_bool_decide as Hin.
    + rewrite elem_of_difference, elem_of_singleton. done.
    + split; [|by intros [? _]]. intros H. split; [done|]. by intros ->.
Qed.

(** C4, as the code has it: the loop walks the live [subscriptions] set;
    there is no copy and no lock.  With nothing interleaved it does what the
    loop over a snapshot does.  When the flows that run during the first
    send leave the set with another size, the next step of the iteration
    raises [RuntimeError]: one frame has been sent, and the handles not yet
    walked get none.  The set itself stays consistent: a connect or a
    disconnect runs between two suspension points and changes the
    membership of its own handle only, and no handle is held twice. *)
Theorem broadcast_walks_live_set
    (json_dumps : list ProcessedAgentData -> option string)
    (send_ok : handle -> bool) (data : list ProcessedAgentData) (w : World) :
  send_data_to_subscribers json_dumps send_ok data [] w
    = Some (snapshot_broadcast json_dumps send_ok data [] w) /\
  (forall p h hs es sched,
     json_dumps data = Some p ->
     elements (subscriptions w) = h :: hs ->
     send_ok h = true ->
     size (run_events es (subscriptions w)) ≠ size (subscriptions w) ->
     send_data_to_subscribers json_dumps send_ok data (es :: sched) w
     = Some (Raise (RuntimeError "Set changed size during iteration"),
             {| db := db w;
                subscriptions := run_events es (subscriptions w);
                sent := sent w ++ [(h, p)] |})) /\
  (forall e h,
     h ∈ run_event e (subscriptions w) <->
     match e with
     | Connect h' => h = h' \/ h ∈ subscriptions w
     | Disconnect h' => h ∈ subscriptions w /\ h ≠ h'
     end) /\
  NoDup (elements (subscriptions w)).
Proof.
  split; [|split; [|split]]; [| |intros e h; apply run_event_membership
                                 |apply NoDup_elements].
  - unfold send_data_to_subscribers, snapshot_broadcast.
    rewrite send_loop_quiet; [done | done | simpl; lia].
  - intros p h hs es sched Hp Hel Hh Hsz.
    unfold send_data_to_subscribers.
    assert (Hsize : size (subscriptions w) = S (length hs)).
    { change (size (subscriptions w)) with (length (elements (subscriptions w))).
      by rewrite Hel. }
    rewrite Hsize. simpl. unfold setiter_next at 1. simpl.
    rewrite bool_decide_eq_true_2 by done. rewrite Hel. simpl.
    unfold send_one. rewrite Hp, Hh. simpl.
    unfold setiter_next. simpl. rewrite bool_decide_eq_false_2 by done.
    done.
Qed.

(** C4 as stated fails: a connection accepted while the broadcast is
    suspended in its first send.  The live loop raises and handle 1 gets no
    frame; a loop over a snapshot would have served both subscribers. *)
Lemma live_iteration_counterexample :
  send_data_to_subscribers sample_json_dumps (fun _ => true) []
    [[Connect 3%nat]] (sample_world {[1%nat; 2%nat]})
  = Some (Raise (RuntimeError "Set changed size during iteration"),
          {| db := empty_database; subscriptions := {[1%nat; 2%nat; 3%nat]};
             sent := [(2%nat, "[]")] |}) /\
  snapshot_broadcast sample_json_dumps (fun _ => true) []
    [[Connect 3%nat]] (sample_world {[1%nat; 2%nat]})
  = (Ok tt,
     {| db := empty_database; subscriptions := {[1%nat; 2%nat; 3%nat]};
        sent := [(2%nat, "[]"); (1%nat, "[]")] |}).
Proof. split; vm_compute; reflexivity. Qed.

(** ** Removing a subscriber *)

Lemma set_remove_absent (h : handle) (s : gset handle) :
  h ∉ s -> set_remove h s = Raise KeyError.
Proof. intros H. unfold set_remove. by rewrite bool_decide_eq_false_2. Qed.

Lemma set_remove_present (h : handle) (s : gset handle) :
  h ∈ s -> set_remove h s = Ok (s ∖ {[h]}).
Proof. intros H. unfold set_remove. by rewrite bool_decide_eq_true_2. Qed.

(** ** Update *)

Lemma find_update_same (i : Z) (u : ProcessedAgentData)
    (l : list ProcessedAgentDataInDB) :
  i ∈ ids l ->
  List.find (has_id i)
    (List.map (fun r => if has_id i r then values i u else r) l)
  = Some (values i u).
Proof.
  induction l as [|r l IH]; simpl; intros Hin.
  - by apply elem_of_nil in Hin.
  - destruct (has_id i r) eqn:E.
    + unfold has_id. simpl. by rewrite bool_decide_eq_true_2.
    + rewrite E. apply IH. apply elem_of_cons in Hin as [->|Hin]; [|done].
      unfold has_id in E. by rewrite bool_decide_eq_true_2 in E.
Qed.

Lemma find_update_other (i j : Z) (u : ProcessedAgentData)
    (l : list ProcessedAgentDataInDB) :
  j ≠ i ->
  List.find (has_id j)
    (List.map (fun r => if has_id i r then values i u else r) l)
  = List.find (has_id j) l.
Proof.
  intros Hne. induction l as [|r l IH]; simpl; [done|].
  destruct (has_id i r) eqn:Ei.
  - apply bool_decide_eq_true in Ei.
    assert (E1 : has_id j (values i u) = false)
      by (apply bool_decide_eq_false; simpl; congruence).
    assert (E2 : has_id j r = false)
      by (apply bool_decide_eq_false; congruence).
    by rewrite E1, E2.
  - destruct (has_id j r); [done | exact IH].
Qed.

Lemma update_present (i : Z) (u : ProcessedAgentData) (d : Database) :
  i ∈ ids (rows d) ->
  update_processed_agent_data None i u d
  = (Ok (Some (values i u)),
     {| rows := List.map (fun r => if has_id i r then values i u else r) (rows d);
        next_id := next_id d |}).
Proof.
  intros Hin.
  destruct (List.find (has_id i) (rows d)) as [r|] eqn:E;
    [|by apply find_none_ids in E].
  unfold update_processed_agent_data, with_session, execute_select_first,
    execute_update, commit, bind.
  rewrite statement_ok by done. simpl. rewrite E. simpl.
  by rewrite find_update_same.
Qed.

(** X1: updating an identifier that is present returns the row under the
    same identifier with the new road_state, the new x, y, z, latitude and
    longitude (a zero of either sign as positive zero) and the new
    timestamp (as given when it is naive, without offset otherwise); a read
    of the identifier then gives that row, a read of any other identifier
    gives what it gave before, and the identifiers in the table and the
    sequence are as they were. *)
Theorem update_replaces_fields (i : Z) (u : ProcessedAgentData) (d : Database) :
  i ∈ ids (rows d) ->
  let d' := snd (update_processed_agent_data None i u d) in
  exists row,
    fst (update_processed_agent_data None i u d) = Ok (Some row) /\
    read_processed_agent_data None i d' = (Ok row, d') /\
    db_id row = i /\
    db_road_state row = road_state u /\
    Forall (fun '(f, g) => if PrimFloat.eqb f zero then g = zero else g = f)
      [(x (accelerometer (agent_data u)), db_x row);
       (y (accelerometer (agent_data u)), db_y row);
       (z (accelerometer (agent_data u)), db_z row);
       (latitude (gps (agent_data u)), db_latitude row);
       (longitude (gps (agent_data u)), db_longitude row)] /\
    (utcoffset (timestamp (agent_data u)) = None ->
     db_timestamp row = timestamp (agent_data u)) /\
    utcoffset (db_timestamp row) = None /\
    (forall j, j ≠ i ->
       fst (read_processed_agent_data None j d')
       = fst (read_processed_agent_data None j d)) /\
    ids (rows d') = ids (rows d) /\
    next_id d' = next_id d.
Proof.
  intros Hin d'. unfold d'. rewrite update_present by done. simpl.
  exists (values i u).
  destruct (values_fields i u) as (Hid & Hrs & Hfl & Hts & Hoff).
  split; [reflexivity|]. split; [|do 5 (split; [done|]); split; [|split]].
  - apply read_present. simpl. by apply find_update_same.
  - intros j Hne.
    unfold read_processed_agent_data, with_session, execute_select_first, bind.
    rewrite !statement_ok by done. simpl. rewrite find_update_other by done.
    by destruct (List.find (has_id j) (rows d)).
  - apply ids_update.
  - reflexivity.
Qed.

Lemma update_replaces_fields_witness :
  let d := snd (create_block None [sample_unit; sample_unit] empty_database) in
  let u := {| road_state := "bumpy"; agent_data := agent_data sample_unit |} in
  (2 ∈ ids (rows d)) /\
  exists row,
    fst (update_processed_agent_data None 2 u d) = Ok (Some row) /\
    read_processed_agent_data None 2 (snd (update_processed_agent_data None 2 u d))
    = (Ok row, snd (update_processed_agent_data None 2 u d)) /\
    db_id row = 2 /\
    db_road_state row = "bumpy".
Proof.
  intros d u.
  assert (H : 2 ∈ ids (rows d))
    by (vm_compute; apply list_elem_of_further, list_elem_of_here).
  destruct (update_replaces_fields 2 u d H) as (row & H1 & H2 & H3 & H4 & _).
  split; [exact H|]. exists row.
  split; [exact H1|]. split; [exact H2|]. split; [exact H3 | exact H4].
Defined.

(** X2: an update is stored exactly when its commit goes through.  A
    database fault at the lookup, at the update statement or at the commit
    answers with the fault and leaves the table as it was; a fault at the
    re-read that follows the commit answers with the fault although the new
    values are stored. *)
Theorem update_fault_positions (i : Z) (u : ProcessedAgentData) (d : Database) :
  i ∈ ids (rows d) ->
  update_processed_agent_data (Some 0%nat) i u d = (Raise SQLAlchemyError, d) /\
  update_processed_agent_data (Some 1%nat) i u d = (Raise SQLAlchemyError, d) /\
  update_processed_agent_data (Some 2%nat) i u d = (Raise SQLAlchemyError, d) /\
  update_processed_agent_data (Some 3%nat) i u d
  = (Raise SQLAlchemyError, snd (update_processed_agent_data None i u d)) /\
  (forall k, (4 <= k)%nat ->
     update_processed_agent_data (Some k) i u d
     = update_processed_agent_data None i u d).
Proof.
  intros Hin.
  destruct (List.find (has_id i) (rows d)) as [r|] eqn:E;
    [|by apply find_none_ids in E].
  rewrite update_present by done.
  unfold update_processed_agent_data, with_session, execute_select_first,
    execute_update, commit, bind.
  split; [|split; [|split; [|split]]].
  - rewrite statement_fails by done. simpl. by rewrite database_eta.
  - rewrite statement_ok by done. simpl. rewrite E. simpl.
    by rewrite database_eta.
  - rewrite statement_ok by done. simpl. rewrite E. simpl.
    by rewrite database_eta.
  - rewrite statement_ok by done. simpl. rewrite E. simpl. done.
  - intros k Hk. unfold statement. simpl.
    rewrite bool_decide_eq_false_2 by (intros [= ->]; lia). simpl. rewrite E. simpl.
    rewrite bool_decide_eq_false_2 by (intros [= ->]; lia). simpl.
    rewrite bool_decide_eq_false_2 by (intros [= ->]; lia). simpl.
    rewrite bool_decide_eq_false_2 by (intros [= ->]; lia). simpl.
    by rewrite find_update_same.
Qed.

Lemma update_fault_positions_witness :
  let d := snd (create_block None [sample_unit] empty_database) in
  let u := {| road_state := "bumpy"; agent_data := agent_data sample_unit |} in
  (1 ∈ ids (rows d)) /\
  update_processed_agent_data (Some 2%nat) 1 u d = (Raise SQLAlchemyError, d) /\
  update_processed_agent_data (Some 3%nat) 1 u d
  = (Raise SQLAlchemyError, snd (update_processed_agent_data None 1 u d)).
Proof.
  intros d u.
  assert (H : 1 ∈ ids (rows d)) by (vm_compute; apply list_elem_of_here).
  destruct (update_fault_positions 1 u d H) as (_ & _ & H2 & H3 & _).
  split; [exact H|]. split; [exact H2 | exact H3].
Defined.

(** ** Create: all or nothing *)

Lemma insert_all_steps (data : list ProcessedAgentData) (s : Session) :
  (forall j, (j < length data)%nat -> fault s ≠ Some (issued s + j)%nat) ->
  insert_all data s
  = (Ok tt, {| committed := committed s;
               pending := pending s ++ assign (sequence s) data;
               sequence := sequence s + Z.of_nat (length data);
               issued := (issued s + length data)%nat;
               fault := fault s |}).
Proof.
  revert s. induction data as [|u data IH]; intros [c p n k f] Hf; simpl in *.
  - unfold ret. by rewrite app_nil_r, Z.add_0_r, Nat.add_0_r.
  - unfold bind, execute_insert, bind. rewrite statement_ok; simpl.
    + rewrite IH; simpl.
      * rewrite <- app_assoc. simpl.
        replace (n + 1 + Z.of_nat (length data))
          with (n + Z.pos (Pos.of_succ_nat (length data))) by lia.
        replace (S (k + length data)) with (k + S (length data))%nat by lia.
        done.
      * intros j Hj. specialize (Hf (S j)).
        replace (S (k + j))%nat with (k + S j)%nat by lia. apply Hf. lia.
    + specialize (Hf 0%nat). rewrite Nat.add_0_r in Hf. apply Hf. lia.
Qed.

Lemma insert_all_strikes (data : list ProcessedAgentData) (s : Session) (j : nat) :
  (j < length data)%nat -> fault s = Some (issued s + j)%nat ->
  fst (insert_all data s) = Raise SQLAlchemyError.
Proof.
  revert s j. induction data as [|u data IH]; intros [c p n k f] j Hj Hf;
    simpl in *; [lia|].
  unfold bind, execute_insert, bind, statement. simpl.
  destruct j as [|j].
  - rewrite bool_decide_eq_true_2; [done|]. by rewrite Hf, Nat.add_0_r.
  - rewrite bool_decide_eq_false_2 by (rewrite Hf; intros [= ?]; lia). simpl.
    apply (IH _ j); simpl; [lia|]. rewrite Hf. f_equal. lia.
Qed.

Lemma create_block_empty (flt : option nat) (d : Database) :
  create_block flt [] d = (Ok tt, d).
Proof.
  unfold create_block, with_session, bind, commit. simpl. by rewrite database_eta.
Qed.

Lemma create_block_fault (k : nat) (data : list ProcessedAgentData) (d : Database) :
  (k <= length data)%nat -> data ≠ [] ->
  fst (create_block (Some k) data d) = Raise SQLAlchemyError.
Proof.
  intros Hk Hne. unfold create_block, with_session, bind.
  destruct (decide (k < length data)%nat) as [Hlt|Hge].
  - match goal with |- context [insert_all data ?s0] =>
      pose proof (insert_all_strikes data s0 k Hlt eq_refl) as E;
      destruct (insert_all data s0) as [[[]|e] s1] end; simpl in E; [done|].
    by rewrite E.
  - assert (k = length data) as -> by lia.
    rewrite insert_all_steps by (simpl; intros j Hj [= ?]; lia).
    unfold commit. cbn [issued]. rewrite bool_decide_eq_false_2.
    + unfold bind. by rewrite statement_fails.
    + destruct data; [done | simpl; lia].
Qed.

Lemma create_block_spared (flt : option nat) (data : list ProcessedAgentData)
    (d : Database) :
  (forall k, flt = Some k -> (length data < k)%nat) ->
  fst (create_block flt data d) = Ok tt /\
  snd (create_block flt data d)
  = {| rows := rows d ++ assign (next_id d) data;
       next_id := next_id d + Z.of_nat (length data) |}.
Proof.
  intros Hf. destruct data as [|u data].
  - rewrite create_block_empty. simpl. rewrite app_nil_r, Z.add_0_r.
    by rewrite database_eta.
  - unfold create_block, with_session, bind.
    rewrite insert_all_steps.
    + unfold commit. cbn [issued]. rewrite bool_decide_eq_false_2 by (simpl; lia).
      unfold bind. rewrite statement_ok; [done|]. simpl.
      intros E. specialize (Hf _ E). simpl in Hf. lia.
    + simpl. intros j Hj E. specialize (Hf _ E). simpl in Hf. lia.
Qed.

(** X3: the session block of create is all or nothing.  Counting the
    inserts of a batch that is not empty from 0 and the commit last, a
    database fault at any of them answers with the fault and leaves the rows
    of the table as they were, however many inserts had gone through; with
    no fault among them every unit of the batch is stored, numbered on from
    the sequence.  An empty batch reaches the database with nothing, not
    even the commit: it succeeds and changes nothing whatever state the
    database is in. *)
Theorem create_all_or_nothing (flt : option nat) (data : list ProcessedAgentData)
    (d : Database) :
  ((forall k, flt = Some k -> (length data < k)%nat) ->
   fst (create_block flt data d) = Ok tt /\
   snd (create_block flt data d)
   = {| rows := rows d ++ assign (next_id d) data;
        next_id := next_id d + Z.of_nat (length data) |}) /\
  (forall k, flt = Some k -> (k <= length data)%nat -> data ≠ [] ->
   fst (create_block flt data d) = Raise SQLAlchemyError /\
   rows (snd (create_block flt data d)) = rows d) /\
  create_block flt [] d = (Ok tt, d) /\
  length (assign (next_id d) data) = length data /\
  (forall k u, data !! k = Some u ->
     assign (next_id d) data !! k = Some (values (next_id d + Z.of_nat k) u)).
Proof.
  split; [|split; [|split; [|split]]].
  - apply create_block_spared.
  - intros k -> Hk Hne. pose proof (create_block_fault k data d Hk Hne) as Hbad.
    split; [exact Hbad|]. apply create_block_rows. by rewrite Hbad.
  - apply create_block_empty.
  - generalize (next_id d). induction data as [|u data IH]; intros n; simpl;
      [done | by rewrite IH].
  - intros k u. apply assign_lookup.
Qed.

(** ** Read *)

(** X4: in a table the service can reach, a read answers with a row exactly
    when that row is in the table under the identifier asked for; and a
    read, whatever the database does, leaves the table as it was. *)
Theorem read_returns_the_row (flt : option nat) (i : Z)
    (r : ProcessedAgentDataInDB) (d : Database) :
  reachable d ->
  (fst (read_processed_agent_data None i d) = Ok r <-> r ∈ rows d /\ db_id r = i) /\
  snd (read_processed_agent_data flt i d) = d.
Proof.
  intros Hreach. apply reachable_inv in Hreach as (Hnd & _ & _). split.
  - destruct (List.find (has_id i) (rows d)) as [r'|] eqn:E.
    + rewrite (read_present _ _ _ E). simpl.
      apply find_some_ids in E as [Hin Hid]. split.
      * by intros [= <-].
      * intros [Hr <-]. pose proof (find_elem r (rows d) Hnd Hr) as E'.
        pose proof (find_elem r' (rows d) Hnd Hin) as E''.
        rewrite Hid in E''. congruence.
    + apply find_none_ids in E as Hout. rewrite read_absent by done. simpl.
      split; [done|]. intros [Hr <-]. exfalso. apply Hout, elem_of_ids. by exists r.
  - unfold read_processed_agent_data, with_session, execute_select_first, bind,
      statement. simpl.
    case_bool_decide; simpl; [by rewrite database_eta|].
    destruct (List.find (has_id i) (rows d)); simpl; by rewrite database_eta.
Qed.

Lemma read_returns_the_row_witness :
  let d := snd (create_block None [sample_unit] empty_database) in
  reachable d /\
  (fst (read_processed_agent_data None 1 d) = Ok (values 1 sample_unit) <->
   values 1 sample_unit ∈ rows d /\ db_id (values 1 sample_unit) = 1) /\
  snd (read_processed_agent_data (Some 0%nat) 1 d) = d.
Proof.
  intros d.
  assert (H : reachable d) by (exists [Create None [sample_unit]]; reflexivity).
  split; [exact H|].
  exact (read_returns_the_row (Some 0%nat) 1 (values 1 sample_unit) d H).
Defined.

Lemma length_assign (n : Z) (data : list ProcessedAgentData) :
  length (assign n data) = length data.
Proof.
  revert n. induction data as [|u data IH]; intros n; simpl; [done | by rewrite IH].
Qed.

(** X5: whatever the broadcast that follows the commit does, the answer to
    a list request after a create that met no database fault holds every
    row that was there before and, for each unit of the batch, the row a
    read of that unit's identifier returns, and it holds no more rows than
    these.  Nothing is said of their order: the select has no ORDER BY. *)
Theorem list_after_create
    (json_dumps : list ProcessedAgentData -> option string)
    (send_ok : handle -> bool) (sched : list (list flow_event))
    (data : list ProcessedAgentData) (w : World) :
  reachable (db w) ->
  exists r w' listed,
    create_processed_agent_data json_dumps send_ok None sched data w = Some (r, w') /\
    list_processed_agent_data None (db w') = (Ok listed, db w') /\
    length listed = (length (rows (db w)) + length data)%nat /\
    (forall row, row ∈ rows (db w) -> row ∈ listed) /\
    (forall k u, data !! k = Some u ->
       exists row,
         fst (read_processed_agent_data None (next_id (db w) + Z.of_nat k) (db w'))
         = Ok row /\
         row ∈ listed).
Proof.
  intros Hreach. pose proof (reachable_inv _ Hreach) as (Hnd & Hlt & _).
  destruct (create_runs json_dumps send_ok None sched data w)
    as (r & w' & Hrun & Hdb & _).
  exists r, w', (rows (db w) ++ assign (next_id (db w)) data).
  split; [exact Hrun|]. rewrite list_all, Hdb, create_block_ok. simpl.
  split; [done|]. split; [by rewrite length_app, length_assign|].
  split; [intros row Hrow; apply elem_of_app; by left|].
  intros k u Hk. exists (values (next_id (db w) + Z.of_nat k) u). split.
  - rewrite (read_present _ (values (next_id (db w) + Z.of_nat k) u)); [done|].
    simpl. rewrite find_app_fresh.
    + by apply find_assign.
    + intros Hin. apply Hlt in Hin. lia.
  - apply elem_of_app. right. apply list_elem_of_lookup. exists k.
    by apply assign_lookup.
Qed.

Lemma list_after_create_witness :
  reachable (db (sample_world ∅)) /\
  exists r w' listed,
    create_processed_agent_data sample_json_dumps (fun _ => true) None []
      [sample_unit; sample_unit] (sample_world ∅) = Some (r, w') /\
    list_processed_agent_data None (db w') = (Ok listed, db w') /\
    length listed = 2%nat.
Proof.
  assert (H : reachable (db (sample_world ∅))) by (exists []; reflexivity).
  split; [exact H|].
  destruct (list_after_create sample_json_dumps (fun _ => true) []
              [sample_unit; sample_unit] (sample_world ∅) H)
    as (r & w' & listed & H1 & H2 & H3 & _).
  exists r, w', listed. split; [exact H1|]. split; [exact H2 | exact H3].
Defined.

(** ** Delete *)

Lemma delete_nothing (i : Z) (l : list ProcessedAgentDataInDB) :
  i ∉ ids l -> List.filter (fun r' => negb (has_id i r')) l = l.
Proof.
  induction l as [|r l IH]; simpl; intros Hout; [done|].
  apply not_elem_of_cons in Hout as [Hne Hout].
  unfold has_id at 1. rewrite bool_decide_eq_false_2 by congruence. simpl.
  by rewrite IH.
Qed.

Lemma length_delete (r : ProcessedAgentDataInDB) (l : list ProcessedAgentDataInDB) :
  NoDup (ids l) -> r ∈ l ->
  S (length (List.filter (fun r' => negb (has_id (db_id r) r')) l)) = length l.
Proof.
  induction l as [|r' l IH]; simpl; intros Hnd Hr.
  - by apply elem_of_nil in Hr.
  - apply NoDup_cons in Hnd as [Hr' Hnd].
    apply elem_of_cons in Hr as [->|Hr].
    + unfold has_id at 1. rewrite bool_decide_eq_true_2 by done. simpl.
      by rewrite delete_nothing.
    + unfold has_id at 1. rewrite bool_decide_eq_false_2.
      * simpl. f_equal. by apply IH.
      * intros E. apply Hr'. rewrite E. apply elem_of_ids. by exists r.
Qed.

(** X6: in a table the service can reach, deleting a row that is present
    takes out that one row and no other: the table is one row shorter, and
    every row under another identifier is still there and is still what a
    read of its identifier returns. *)
Theorem delete_removes_one_row (r : ProcessedAgentDataInDB) (d : Database) :
  reachable d -> r ∈ rows d ->
  let d' := snd (delete_processed_agent_data None (db_id r) d) in
  S (length (rows d')) = length (rows d) /\
  (forall r', r' ∈ rows d' <-> r' ∈ rows d /\ db_id r' ≠ db_id r) /\
  (forall r', r' ∈ rows d -> db_id r' ≠ db_id r ->
     fst (read_processed_agent_data None (db_id r') d') = Ok r') /\
  next_id d' = next_id d.
Proof.
  intros Hreach Hr d'. apply reachable_inv in Hreach as Hinv.
  destruct Hinv as (Hnd & _ & _).
  pose proof (find_elem r (rows d) Hnd Hr) as Hfind.
  assert (Hd' : d' = {| rows := List.filter (fun r' => negb (has_id (db_id r) r'))
                                            (rows d);
                        next_id := next_id d |})
    by (unfold d'; by rewrite (delete_present _ _ _ Hfind)).
  assert (Hmem : forall r', r' ∈ rows d' <-> r' ∈ rows d /\ db_id r' ≠ db_id r).
  { intros r'. rewrite Hd'. simpl. rewrite !list_elem_of_In, List.filter_In.
    unfold has_id. rewrite negb_true_iff, bool_decide_eq_false. done. }
  split; [|split; [exact Hmem|split]].
  - rewrite Hd'. simpl. by apply length_delete.
  - intros r' Hr' Hne.
    assert (Hnd' : NoDup (ids (rows d')))
      by (rewrite Hd'; simpl; by apply NoDup_ids_delete).
    rewrite (read_present (db_id r') r'); [done|].
    apply find_elem; [exact Hnd'|]. by apply Hmem.
  - by rewrite Hd'.
Qed.

Lemma delete_removes_one_row_witness :
  let d := snd (create_block None [sample_unit; sample_unit] empty_database) in
  let d' := snd (delete_processed_agent_data None 1 d) in
  (reachable d /\ values 1 sample_unit ∈ rows d) /\
  S (length (rows d')) = length (rows d) /\
  fst (read_processed_agent_data None 2 d') = Ok (values 2 sample_unit).
Proof.
  intros d d'.
  assert (H : reachable d)
    by (exists [Create None [sample_unit; sample_unit]]; reflexivity).
  assert (Hr : values 1 sample_unit ∈ rows d) by (vm_compute; apply list_elem_of_here).
  destruct (delete_removes_one_row (values 1 sample_unit) d H Hr) as (H1 & _ & H2 & _).
  split; [split; [exact H | exact Hr]|]. split; [exact H1|].
  apply (H2 (values 2 sample_unit)).
  - vm_compute. apply list_elem_of_further, list_elem_of_here.
  - discriminate.
Defined.

(** X7: a delete is stored exactly when its commit goes through: a database
    fault at the lookup, at the delete statement or at the commit answers
    with the fault and leaves the table as it was, the row included; a
    fault position past the commit never strikes. *)
Theorem delete_fault_positions (i : Z) (d : Database) :
  i ∈ ids (rows d) ->
  delete_processed_agent_data (Some 0%nat) i d = (Raise SQLAlchemyError, d) /\
  delete_processed_agent_data (Some 1%nat) i d = (Raise SQLAlchemyError, d) /\
  delete_processed_agent_data (Some 2%nat) i d = (Raise SQLAlchemyError, d) /\
  (forall k, (3 <= k)%nat ->
     delete_processed_agent_data (Some k) i d
     = delete_processed_agent_data None i d).
Proof.
  intros Hin.
  destruct (List.find (has_id i) (rows d)) as [r|] eqn:E;
    [|by apply find_none_ids in E].
  rewrite (delete_present _ _ _ E).
  unfold delete_processed_agent_data, with_session, execute_select_first,
    execute_delete, commit, bind.
  split; [|split; [|split]].
  - rewrite statement_fails by done. simpl. by rewrite database_eta.
  - rewrite statement_ok by done. simpl. rewrite E. simpl.
    by rewrite database_eta.
  - rewrite statement_ok by done. simpl. rewrite E. simpl.
    by rewrite database_eta.
  - intros k Hk. unfold statement. simpl.
    rewrite bool_decide_eq_false_2 by (intros [= ->]; lia). simpl. rewrite E. simpl.
    rewrite bool_decide_eq_false_2 by (intros [= ->]; lia). simpl.
    rewrite bool_decide_eq_false_2 by (intros [= ->]; lia). simpl.
    done.
Qed.

Lemma delete_fault_positions_witness :
  let d := snd (create_block None [sample_unit] empty_database) in
  (1 ∈ ids (rows d)) /\
  delete_processed_agent_data (Some 2%nat) 1 d = (Raise SQLAlchemyError, d).
Proof.
  intros d.
  assert (H : 1 ∈ ids (rows d)) by (vm_compute; apply list_elem_of_here).
  destruct (delete_fault_positions 1 d H) as (_ & _ & H2 & _).
  split; [exact H | exact H2].
Defined.

(** ** What a broadcast can do *)

(** X9: with nobody subscribed the create handler does not encode the batch
    at all: the database working, it succeeds for every batch, also one the
    encoder would refuse, sends nothing and leaves the committed table. *)
Theorem create_without_subscribers
    (json_dumps : list ProcessedAgentData -> option string)
    (send_ok : handle -> bool) (sched : list (list flow_event))
    (data : list ProcessedAgentData) (w : World) :
  subscriptions w = ∅ ->
  create_processed_agent_data json_dumps send_ok None sched data w
  = Some (Ok tt,
          {| db := {| rows := rows (db w) ++ assign (next_id (db w)) data;
                      next_id := next_id (db w) + Z.of_nat (length data) |};
             subscriptions := ∅;
             sent := sent w |}).
Proof.
  intros Hs. unfold create_processed_agent_data.
  fold (create_block None data (db w)). rewrite create_block_ok.
  destruct w as [d s snt]. simpl in *. subst s.
  unfold send_data_to_subscribers, set_db. cbn [subscriptions send_loop].
  unfold setiter_next, set_iter. cbn [si_used si_pos].
  rewrite bool_decide_eq_true_2 by done. rewrite elements_empty. done.
Qed.

Lemma create_without_subscribers_witness :
  subscriptions (sample_world ∅) = ∅ /\
  sample_json_dumps [sample_unit] = None /\
  create_processed_agent_data sample_json_dumps (fun _ => false) None []
    [sample_unit] (sample_world ∅)
  = Some (Ok tt,
          {| db := {| rows := [] ++ assign 1 [sample_unit]; next_id := 1 + 1 |};
             subscriptions := ∅; sent := [] |}).
Proof.
  assert (H : subscriptions (sample_world ∅) = ∅) by reflexivity.
  split; [exact H|]. split; [reflexivity|].
  exact (create_without_subscribers sample_json_dumps (fun _ => false) []
           [sample_unit] (sample_world ∅) H).
Defined.

(** X10: when somebody is subscribed and the encoder refuses the batch, the
    create request ends with the encoder's [TypeError], a 500, before any
    frame is handed over; the batch is committed all the same and the
    registry is as it was. *)
Theorem create_encoder_refusal
    (json_dumps : list ProcessedAgentData -> option string)
    (send_ok : handle -> bool) (sched : list (list flow_event))
    (data : list ProcessedAgentData) (w : World) :
  subscriptions w ≠ ∅ -> json_dumps data = None ->
  create_processed_agent_data json_dumps send_ok None sched data w
  = Some (Raise TypeError,
          {| db := {| rows := rows (db w) ++ assign (next_id (db w)) data;
                      next_id := next_id (db w) + Z.of_nat (length data) |};
             subscriptions := subscriptions w;
             sent := sent w |}) /\
  status_of (@Raise unit TypeError) = 500.
Proof.
  intros Hs Hp. split; [|done]. unfold create_processed_agent_data.
  fold (create_block None data (db w)). rewrite create_block_ok.
  unfold send_data_to_subscribers. simpl.
  unfold setiter_next. simpl. rewrite bool_decide_eq_true_2 by done.
  destruct (elements (subscriptions w)) as [|h hs] eqn:E.
  - apply elements_empty_inv, leibniz_equiv in E. done.
  - simpl. unfold send_one. by rewrite Hp.
Qed.

Lemma create_encoder_refusal_witness :
  (subscriptions (sample_world {[1%nat]}) ≠ ∅ /\
   sample_json_dumps [sample_unit] = None) /\
  create_processed_agent_data sample_json_dumps (fun _ => true) None []
    [sample_unit] (sample_world {[1%nat]})
  = Some (Raise TypeError,
          {| db := {| rows := [] ++ assign 1 [sample_unit]; next_id := 1 + 1 |};
             subscriptions := {[1%nat]}; sent := [] |}).
Proof.
  assert (H1 : subscriptions (sample_world {[1%nat]}) ≠ ∅)
    by (intros E; apply (f_equal elements) in E; vm_compute in E; discriminate).
  assert (H2 : sample_json_dumps [sample_unit] = None) by reflexivity.
  split; [split; [exact H1 | exact H2]|].
  exact (proj1 (create_encoder_refusal sample_json_dumps (fun _ => true) []
                  [sample_unit] (sample_world {[1%nat]}) H1 H2)).
Defined.

(** ** The registry over connection life cycles *)

Lemma lifecycle_accept_fresh (es : list ws_event) (opened seen : gset handle)
    (h : handle) :
  lifecycle opened seen es = true -> WsAccept h ∈ es -> h ∉ seen.
Proof.
  revert opened seen. induction es as [|e es IH]; intros opened seen Hlc Hin.
  - by apply elem_of_nil in Hin.
  - destruct e as [h0|h0|h0]; simpl in Hlc;
      apply andb_true_iff in Hlc as [Hh0 Hlc]; apply bool_decide_eq_true in Hh0;
      apply elem_of_cons in Hin as [Hin|Hin]; try discriminate.
    + by injection Hin as ->.
    + specialize (IH _ _ Hlc Hin). set_solver.
    + by apply (IH _ _ Hlc).
    + by apply (IH _ _ Hlc).
Qed.

Lemma websocket_run_membership (es : list ws_event) (opened seen s : gset handle) :
  lifecycle opened seen es = true -> opened ⊆ s -> s ⊆ seen ->
  exists s', websocket_run es s = Ok s' /\
             forall h, h ∈ s' <->
                       (h ∈ s \/ WsAccept h ∈ es) /\ WsDisconnect h ∉ es.
Proof.
  revert opened seen s.
  induction es as [|e es IH]; intros opened seen s Hlc Ho Hs.
  - exists s. split; [done|]. intros h. split.
    + intros H. split; [by left | apply not_elem_of_nil].
    + intros [[H|H] _]; [done | by apply elem_of_nil in H].
  - pose proof Hlc as Hlc0.
    destruct e as [h0|h0|h0]; simpl in Hlc;
      apply andb_true_iff in Hlc as [Hh0 Hlc]; apply bool_decide_eq_true in Hh0.
    + destruct (IH _ _ (set_add h0 s) Hlc) as (s' & Hrun & Hmem);
        [unfold set_add; set_solver | unfold set_add; set_solver |].
      exists s'. split; [exact Hrun|]. intros h. rewrite Hmem.
      unfold set_add. rewrite elem_of_union, elem_of_singleton, !elem_of_cons.
      split.
      * intros [[[->|H]|H] Hd]; (split; [|intros [?|?]; [discriminate|done]]); auto.
      * intros [[H|[[= ->]|H]] Hd]; (split; [auto | intros ?; apply Hd; auto]).
    + simpl. rewrite set_remove_present by set_solver.
      destruct (IH _ _ (s ∖ {[h0]}) Hlc) as (s' & Hrun & Hmem);
        [set_solver | set_solver |].
      exists s'. split; [exact Hrun|]. intros h. rewrite Hmem.
      rewrite elem_of_difference, elem_of_singleton, !elem_of_cons.
      assert (Hfresh : WsAccept h0 ∈ es -> False).
      { intros Hin. apply (lifecycle_accept_fresh _ _ _ _ Hlc) in Hin. set_solver. }
      split.
      * intros [[[H Hne]|H] Hd].
        -- split; [auto|]. intros [[= ?]|?]; done.
        -- split; [auto|]. intros [[= ->]|?]; [by apply Hfresh | done].
      * intros [[H|[?|H]] Hd]; try discriminate.
        -- split; [|intros ?; apply Hd; auto]. left. split; [done|].
           intros ->. apply Hd. by left.
        -- split; [auto | intros ?; apply Hd; auto].
    + destruct (IH _ _ s Hlc) as (s' & Hrun & Hmem); [set_solver | done |].
      exists s'. split; [exact Hrun|]. intros h. rewrite Hmem.
      rewrite !elem_of_cons. split.
      * intros [[H|H] Hd]; (split; [auto | intros [?|?]; [discriminate|done]]).
      * intros [[H|[?|H]] Hd]; try discriminate;
          (split; [auto | intros ?; apply Hd; auto]).
Qed.

Lemma lifecycle_abort_accepted (es : list ws_event) (opened seen : gset handle)
    (h : handle) :
  lifecycle opened seen es = true -> WsAbort h ∈ es -> h ∉ opened ->
  WsAccept h ∈ es.
Proof.
  revert opened seen. induction es as [|e es IH]; intros opened seen Hl Hab Ho.
  - by apply elem_of_nil in Hab.
  - destruct e as [h0|h0|h0]; simpl in Hl;
      apply andb_true_iff in Hl as [Hh0 Hl]; apply bool_decide_eq_true in Hh0;
      apply elem_of_cons in Hab as [Hab|Hab]; try discriminate.
    + destruct (decide (h = h0)) as [->|Hne]; [apply list_elem_of_here|].
      apply list_elem_of_further. apply (IH _ _ Hl Hab). set_solver.
    + apply list_elem_of_further. apply (IH _ _ Hl Hab). set_solver.
    + injection Hab as <-. done.
    + apply list_elem_of_further. apply (IH _ _ Hl Hab). set_solver.
Qed.

Lemma lifecycle_closed (es : list ws_event) (opened seen : gset handle)
    (h : handle) :
  lifecycle opened seen es = true -> h ∉ opened -> h ∈ seen ->
  (WsAbort h ∉ es) /\ (WsDisconnect h ∉ es).
Proof.
  revert opened seen. induction es as [|e es IH]; intros opened seen Hl Ho Hs.
  - split; apply not_elem_of_nil.
  - destruct e as [h0|h0|h0]; simpl in Hl;
      apply andb_true_iff in Hl as [Hh0 Hl]; apply bool_decide_eq_true in Hh0.
    + destruct (IH _ _ Hl) as [H1 H2]; [set_solver | set_solver |].
      split; intros Hin; apply elem_of_cons in Hin as [?|?]; done.
    + destruct (IH _ _ Hl) as [H1 H2]; [set_solver | done |].
      split; intros Hin; apply elem_of_cons in Hin as [E|?]; try done.
      injection E as ->. done.
    + destruct (IH _ _ Hl) as [H1 H2]; [set_solver | done |].
      split; intros Hin; apply elem_of_cons in Hin as [E|?]; try done.
      injection E as ->. done.
Qed.

Lemma lifecycle_ends_once (es : list ws_event) (opened seen : gset handle)
    (h : handle) :
  lifecycle opened seen es = true -> opened ⊆ seen ->
  WsAbort h ∈ es -> WsDisconnect h ∉ es.
Proof.
  revert opened seen. induction es as [|e es IH]; intros opened seen Hl Hsub Hab.
  - by apply elem_of_nil in Hab.
  - destruct e as [h0|h0|h0]; simpl in Hl;
      apply andb_true_iff in Hl as [Hh0 Hl]; apply bool_decide_eq_true in Hh0;
      apply elem_of_cons in Hab as [Hab|Hab]; try discriminate.
    + intros Hin. apply elem_of_cons in Hin as [?|Hin]; [discriminate|].
      revert Hin. apply (IH _ _ Hl); [set_solver | done].
    + intros Hin. apply elem_of_cons in Hin as [E|Hin].
      * injection E as ->.
        destruct (lifecycle_closed es _ _ h0 Hl) as [H1 _]; [set_solver..|]. done.
      * revert Hin. apply (IH _ _ Hl); [set_solver | done].
    + injection Hab as <-. intros Hin.
      apply elem_of_cons in Hin as [?|Hin]; [discriminate|].
      destruct (lifecycle_closed es _ _ h Hl) as [_ H2]; [set_solver..|]. done.
    + intros Hin. apply elem_of_cons in Hin as [?|Hin]; [discriminate|].
      revert Hin. apply (IH _ _ Hl); [set_solver | done].
Qed.

(** The registry the handlers leave is the one [websocket_run] computes,
    and along a run of life cycles every handler ends as its event says: the
    accept goes on into the loop, the disconnect returns after its removal,
    the abort lets its exception through. *)
Lemma websocket_trace_lifecycle (raised : handle -> exn) (es : list ws_event)
    (opened seen s : gset handle) :
  (forall h, raised h ≠ WebSocketDisconnect) ->
  lifecycle opened seen es = true -> opened ⊆ s -> s ⊆ seen ->
  websocket_run es s = Ok (snd (websocket_trace raised es s)) /\
  fst (websocket_trace raised es s)
  = (fun e => match e with
              | WsAbort h => Raise (raised h)
              | WsAccept _ | WsDisconnect _ => Ok tt
              end) <$> es.
Proof.
  intros Hother. revert opened seen s.
  induction es as [|e es IH]; intros opened seen s Hlc Ho Hs; [done|].
  destruct e as [h0|h0|h0]; simpl in Hlc;
    apply andb_true_iff in Hlc as [Hh0 Hlc]; apply bool_decide_eq_true in Hh0.
  - destruct (IH _ _ (set_add h0 s) Hlc) as [H1 H2];
      [unfold set_add; set_solver | unfold set_add; set_solver |].
    simpl. destruct (websocket_trace raised es (set_add h0 s)) as [os s'].
    simpl in *. by rewrite H1, H2.
  - destruct (IH _ _ (s ∖ {[h0]}) Hlc) as [H1 H2]; [set_solver | set_solver |].
    simpl. rewrite set_remove_present by set_solver.
    destruct (websocket_trace raised es (s ∖ {[h0]})) as [os s'].
    simpl in *. by rewrite H1, H2.
  - destruct (IH _ _ s Hlc) as [H1 H2]; [set_solver | done |].
    specialize (Hother h0). cbn [websocket_trace websocket_endpoint fmap list_fmap].
    destruct (raised h0) eqn:E; [..|done]; cbn [loop_ends];
      destruct (websocket_trace raised es s) as [os s'];
      simpl in *; by rewrite H1, H2.
Qed.

(** C5, as the code has it: the handler removes in one place only, the
    [WebSocketDisconnect] branch of the flow that added the handle.  Over
    any run of connection life cycles (each connection a fresh handle whose
    receive loop ends at most once) that removal finds its handle in the
    registry: no handler ends with the removal's [KeyError], no removal is
    attempted twice, and a connection that disconnected is out of the
    registry, released once.  A connection whose loop ended with another
    exception has a handler that ends with that exception and is never
    released: it stays in the registry.  So the registry holds exactly the
    connections accepted and not disconnected. *)
Theorem disconnect_removes_once (raised : handle -> exn) (es : list ws_event) :
  (forall h, raised h ≠ WebSocketDisconnect) ->
  lifecycle ∅ ∅ es = true ->
  fst (websocket_trace raised es ∅)
  = (fun e => match e with
              | WsAbort h => Raise (raised h)
              | WsAccept _ | WsDisconnect _ => Ok tt
              end) <$> es /\
  (forall h, WsDisconnect h ∈ es -> h ∉ snd (websocket_trace raised es ∅)) /\
  (forall h, WsAbort h ∈ es -> h ∈ snd (websocket_trace raised es ∅)) /\
  (forall h, h ∈ snd (websocket_trace raised es ∅) <->
             WsAccept h ∈ es /\ WsDisconnect h ∉ es).
Proof.
  intros Hother Hlc.
  destruct (websocket_trace_lifecycle raised es ∅ ∅ ∅ Hother Hlc) as [Hrun Hout];
    [done..|].
  destruct (websocket_run_membership es ∅ ∅ ∅ Hlc) as (s & Hrun' & Hmem); [done..|].
  assert (s = snd (websocket_trace raised es ∅)) as <- by congruence.
  assert (Hiff : forall h, h ∈ s <-> WsAccept h ∈ es /\ WsDisconnect h ∉ es).
  { intros h. rewrite Hmem. split.
    - intros [[H|H] Hd]; [by apply elem_of_empty in H | done].
    - intros [H Hd]. auto. }
  split; [exact Hout|]. split; [|split; [|exact Hiff]].
  - intros h Hd Hin. apply Hiff in Hin as [_ Hn]. done.
  - intros h Hab. apply Hiff. split.
    + apply (lifecycle_abort_accepted es ∅ ∅ h Hlc Hab). apply not_elem_of_empty.
    + by apply (lifecycle_ends_once es ∅ ∅ h Hlc).
Qed.

Lemma disconnect_removes_once_witness :
  ((forall h : handle, (fun _ : handle => RuntimeError "receive") h ≠ WebSocketDisconnect) /\
   lifecycle ∅ ∅ [WsAccept 1%nat; WsAccept 2%nat; WsDisconnect 1%nat; WsAbort 2%nat]
   = true) /\
  fst (websocket_trace (fun _ => RuntimeError "receive")
         [WsAccept 1%nat; WsAccept 2%nat; WsDisconnect 1%nat; WsAbort 2%nat] ∅)
  = [Ok tt; Ok tt; Ok tt; Raise (RuntimeError "receive")] /\
  (forall h, h ∈ snd (websocket_trace (fun _ => RuntimeError "receive")
                        [WsAccept 1%nat; WsAccept 2%nat; WsDisconnect 1%nat;
                         WsAbort 2%nat] ∅) <->
             WsAccept h ∈ [WsAccept 1%nat; WsAccept 2%nat; WsDisconnect 1%nat;
                           WsAbort 2%nat] /\
             WsDisconnect h ∉ [WsAccept 1%nat; WsAccept 2%nat; WsDisconnect 1%nat;
                               WsAbort 2%nat]).
Proof.
  assert (H : lifecycle ∅ ∅
                [WsAccept 1%nat; WsAccept 2%nat; WsDisconnect 1%nat; WsAbort 2%nat] = true)
    by (vm_compute; reflexivity).
  assert (H0 : forall h : handle,
                 (fun _ : handle => RuntimeError "receive") h ≠ WebSocketDisconnect)
    by (intros h; discriminate).
  split; [split; [exact H0 | exact H]|].
  destruct (disconnect_removes_once (fun _ => RuntimeError "receive") _ H0 H)
    as (H1 & _ & _ & H4).
  split; [exact H1 | exact H4].
Defined.

(** C5 as stated fails: a connection whose receive loop ends with an
    exception other than [WebSocketDisconnect].  Its lifetime is over, its
    handler has ended with the exception, and its handle is still in the
    registry: it was released not once but never. *)
Lemma unreleased_handle_counterexample :
  lifecycle ∅ ∅ [WsAccept 1%nat; WsAbort 1%nat] = true /\
  websocket_trace (fun _ => RuntimeError "receive") [WsAccept 1%nat; WsAbort 1%nat] ∅
  = ([Ok tt; Raise (RuntimeError "receive")], {[1%nat]}).
Proof. split; vm_compute; reflexivity. Qed.

(** X13: connections and a create together.  After any run of connection
    life cycles, a create whose payload is encoded and whose sends all go
    through, with nothing interleaved, hands one frame with the payload to
    each connection that was accepted and has not disconnected, to no other
    handle and to none twice, and succeeds. *)
Theorem broadcast_reaches_registered (es : list ws_event)
    (json_dumps : list ProcessedAgentData -> option string)
    (send_ok : handle -> bool) (data : list ProcessedAgentData) (p : string)
    (d : Database) :
  lifecycle ∅ ∅ es = true -> json_dumps data = Some p ->
  (forall h, send_ok h = true) ->
  exists s frames,
    websocket_run es ∅ = Ok s /\
    create_processed_agent_data json_dumps send_ok None [] data
      {| db := d; subscriptions := s; sent := [] |}
    = Some (Ok tt,
            {| db := snd (create_block None data d); subscriptions := s;
               sent := frames |}) /\
    (forall h q, (h, q) ∈ frames <->
                 q = p /\ WsAccept h ∈ es /\ WsDisconnect h ∉ es) /\
    NoDup (fst <$> frames).
Proof.
  intros Hlc Hp Hok.
  destruct (websocket_run_membership es ∅ ∅ ∅ Hlc) as (s & Hrun & Hmem); [done..|].
  exists s, ((fun h => (h, p)) <$> elements s).
  split; [exact Hrun|]. split; [|split].
  - rewrite create_quiet. simpl.
    rewrite (snapshot_loop_quiet_ok _ _ _ p); [done | done |].
    apply Forall_forall. intros h _. apply Hok.
  - intros h q. rewrite list_elem_of_fmap. split.
    + intros (h' & [= -> ->] & Hin). apply elem_of_elements, Hmem in Hin.
      destruct Hin as [[Hin|Hin] Hd]; [by apply elem_of_empty in Hin | done].
    + intros (-> & Ha & Hd). exists h. split; [done|].
      apply elem_of_elements, Hmem. auto.
  - assert (E : forall l : list handle, fst <$> ((fun h => (h, p)) <$> l) = l).
    { induction l as [|h l IH]; [done|]. cbn. f_equal. exact IH. }
    rewrite E. apply NoDup_elements.
Qed.

Lemma broadcast_reaches_registered_witness :
  (lifecycle ∅ ∅ [WsAccept 1%nat; WsAccept 2%nat; WsDisconnect 1%nat] = true /\
   sample_json_dumps [] = Some "[]" /\
   (forall h : handle, (fun _ : handle => true) h = true)) /\
  exists s frames,
    websocket_run [WsAccept 1%nat; WsAccept 2%nat; WsDisconnect 1%nat] ∅ = Ok s /\
    create_processed_agent_data sample_json_dumps (fun _ => true) None [] []
      {| db := empty_database; subscriptions := s; sent := [] |}
    = Some (Ok tt,
            {| db := snd (create_block None [] empty_database); subscriptions := s;
               sent := frames |}) /\
    (forall h q, (h, q) ∈ frames <->
                 q = "[]" /\
                 WsAccept h ∈ [WsAccept 1%nat; WsAccept 2%nat; WsDisconnect 1%nat] /\
                 WsDisconnect h ∉ [WsAccept 1%nat; WsAccept 2%nat; WsDisconnect 1%nat]) /\
    NoDup (fst <$> frames).
Proof.
  assert (H1 : lifecycle ∅ ∅ [WsAccept 1%nat; WsAccept 2%nat; WsDisconnect 1%nat] = true)
    by (vm_compute; reflexivity).
  assert (H2 : sample_json_dumps [] = Some "[]") by reflexivity.
  assert (H3 : forall h : handle, (fun _ : handle => true) h = true) by reflexivity.
  split; [split; [exact H1 | split; [exact H2 | exact H3]]|].
  exact (broadcast_reaches_registered _ sample_json_dumps (fun _ => true) [] "[]"
           empty_database H1 H2 H3).
Defined.

(** ** The body the adapter sends *)

Lemma append_assoc (s1 s2 s3 : string) : (s1 +:+ s2) +:+ s3 = s1 +:+ s2 +:+ s3.
Proof.
  induction s1 as [|c s1 IH]; [done|].
  change (String c ((s1 +:+ s2) +:+ s3) = String c (s1 +:+ s2 +:+ s3)).
  by rewrite IH.
Qed.

Lemma join_app (sep : string) (l1 l2 : list string) :
  l1 ≠ [] -> l2 ≠ [] ->
  Hub.join sep (l1 ++ l2) = Hub.join sep l1 +:+ sep +:+ Hub.join sep l2.
Proof.
  intros H1 H2. induction l1 as [|p l1 IH]; [done|].
  destruct l1 as [|q l1].
  - simpl. destruct l2; done.
  - change (Hub.join sep ((p :: q :: l1) ++ l2))
      with (p +:+ sep +:+ Hub.join sep ((q :: l1) ++ l2)).
    rewrite IH by done.
    change (Hub.join sep (p :: q :: l1)) with (p +:+ sep +:+ Hub.join sep (q :: l1)).
    by rewrite !append_assoc.
Qed.

Lemma save_data_wire (ProcessedAgentData : Type)
    (model_dump_json : ProcessedAgentData -> string)
    (post : Hub.Request -> result Hub.Response) (api_base_url : string)
    (batch : list ProcessedAgentData) :
  fst (Hub.save_data ProcessedAgentData model_dump_json post api_base_url batch)
  = [{| Hub.url := api_base_url +:+ "/processed_agent_data";
        Hub.body := "[" +:+ Hub.join "," (List.map model_dump_json batch) +:+ "]" |}].
Proof.
  unfold Hub.save_data, Hub.requests_post.
  match goal with |- context [post ?q] => destruct (post q) as [response|e] end;
    [case_bool_decide|]; done.
Qed.

(** X16: the body [save_data] posts.  For the empty batch it is "[]",
    and a request is sent all the same; for one record it is the record's
    JSON between the brackets; and for a batch made of two non-empty parts
    it is the contents of the two parts' bodies with one comma between
    them, so records are separated by single commas with none leading or
    trailing. *)
Theorem save_data_body (ProcessedAgentData : Type)
    (model_dump_json : ProcessedAgentData -> string)
    (post : Hub.Request -> result Hub.Response) (api_base_url : string) :
  fst (Hub.save_data ProcessedAgentData model_dump_json post api_base_url [])
    = [{| Hub.url := api_base_url +:+ "/processed_agent_data"; Hub.body := "[]" |}] /\
  (forall r,
     Hub.body <$> fst (Hub.save_data ProcessedAgentData model_dump_json post
                         api_base_url [r])
     = ["[" +:+ model_dump_json r +:+ "]"]) /\
  (forall b1 b2, b1 ≠ [] -> b2 ≠ [] ->
     Hub.body <$> fst (Hub.save_data ProcessedAgentData model_dump_json post
                         api_base_url (b1 ++ b2))
     = ["[" +:+ Hub.join "," (List.map model_dump_json b1) +:+ "," +:+
        Hub.join "," (List.map model_dump_json b2) +:+ "]"]).
Proof.
  split; [|split].
  - by rewrite save_data_wire.
  - intros r. by rewrite save_data_wire.
  - intros b1 b2 H1 H2. rewrite save_data_wire.
    rewrite List.map_app, join_app.
    + cbn. by rewrite !append_assoc.
    + by destruct b1.
    + by destruct b2.
Qed.
